(** * Psycho's Helpers: copy, remap, flip and swap of bone keyframes

    A shallow embedding of the Blender add-on "Psycho's Helpers"
    (Psychos Helpers.py and its earlier variant
    copy_bone_keyframes_plugin2.py) and the properties of its operators.

    The operators work on the F-curves of the active Action of an armature.
    The Action is modelled as a store: a list of F-curves addressed by
    position, each holding its data path, its array index and its keyframe
    points.  Operators are state-passing functions over that store and
    return the outcome set of the operator together with the reports it
    made.

    Keyframe coordinates are floats in the add-on.  The only arithmetic the
    operators perform on them is the comparison of time coordinates and the
    multiplication by 1 or -1, both of which are exact on floats, so the
    coordinates are modelled by rationals. *)

From Stdlib Require Import String Ascii ZArith QArith Lia Bool.
From stdpp Require Import base list strings.

Local Open Scope string_scope.
Local Open Scope Z_scope.
Local Open Scope list_scope.

(** ** Strings: the Python string operations the operators use *)

Module PyStr.

(** [s.startswith(p)] *)
Fixpoint startswith (s p : string) {struct p} : bool :=
  match p with
  | EmptyString => true
  | String c p' =>
      match s with
      | EmptyString => false
      | String d s' => if Ascii.eqb c d then startswith s' p' else false
      end
  end.

(** [s.endswith(p)] *)
Definition endswith (s p : string) : bool :=
  startswith (String.rev s) (String.rev p).

(** The first [n] characters of [s]: [s[:n]] for [0 <= n]. *)
Fixpoint take (n : nat) (s : string) : string :=
  match n, s with
  | S n', String c s' => String c (take n' s')
  | _, _ => EmptyString
  end.

(** [s[:-k]] for a non negative [k].  Python reads [-0] as [0], so
    [s[:-0]] is the empty string; for [0 < k] the slice drops the last
    [k] characters (and is empty when [k] exceeds the length). *)
Definition slice_to_neg (s : string) (k : nat) : string :=
  match k with
  | O => EmptyString
  | _ => take (String.length s - k)%nat s
  end.

(** [p in s]: [p] occurs in [s] as a substring. *)
Fixpoint contains (s p : string) : bool :=
  startswith s p ||
  match s with
  | EmptyString => false
  | String _ s' => contains s' p
  end.

(** [s.split('.')[-1]]: the text after the last dot ([cur] is the text
    read since the last dot seen). *)
Fixpoint last_segment_from (cur s : string) : string :=
  match s with
  | EmptyString => cur
  | String c s' =>
      if Ascii.eqb c "."%char then last_segment_from EmptyString s'
      else last_segment_from (cur +:+ String c EmptyString) s'
  end.

Definition last_segment (s : string) : string :=
  last_segment_from EmptyString s.

End PyStr.

(** ** Data model *)

(** The enumerations of a keyframe point.  Only their identity matters. *)
Inductive Interpolation := CONSTANT | LINEAR | BEZIER.
Inductive Easing := AUTO | EASE_IN | EASE_OUT | EASE_IN_OUT.
Inductive HandleType := FREE | ALIGNED | VECTOR | AUTO_H | AUTO_CLAMPED.

(** [bpy.types.Keyframe], restricted to the attributes the add-on reads or
    writes.  [co] is (frame, value). *)
Record Keyframe := mkKeyframe {
  co : Q * Q;
  handle_left : Q * Q;
  handle_right : Q * Q;
  interpolation : Interpolation;
  easing : Easing;
  handle_left_type : HandleType;
  handle_right_type : HandleType
}.

(** [bpy.types.FCurve] *)
Record FCurve := mkFCurve {
  data_path : string;
  array_index : Z;
  keyframe_points : list Keyframe
}.

(** [bpy.types.Action]: its F-curve collection, in collection order. *)
Abbreviation Action := (list FCurve).

(** [obj.animation_data]: [None] when the object has no animation data,
    [Some None] when it has animation data without an action. *)
Abbreviation AnimData := (option (option Action)).

Inductive ObjType := ARMATURE | MESH | OtherType.

(** A pose bone is identified by its name, unique within the pose. *)
Abbreviation Bone := string.

Record Object := mkObject {
  obj_type : ObjType;
  pose_bones : list Bone;
  animation_data : AnimData
}.

(** The scene properties registered by the add-on. *)
Record Scene := mkScene {
  source_x_axis : string;
  source_y_axis : string;
  source_z_axis : string;
  replace_all_keyframes : bool;
  secondary_x_axis : string;
  secondary_y_axis : string;
  secondary_z_axis : string;
  secondary_replace_all_keyframes : bool;
  primary_mapper : string;
  primary_suffix : string;
  secondary_mapper : string;
  secondary_suffix : string
}.

Record Context := mkContext {
  object : option Object;
  selected_pose_bones : list Bone;
  active_pose_bone : option Bone;
  scene : Scene
}.

(** ** Reports and outcomes *)

Inductive Severity := INFO | WARNING | ERROR.

(** The messages of the operators, with the values their format strings
    interpolate. *)
Inductive Message :=
| NotAnArmature
| SelectExactlyTwo
| ActiveNotSelected
| NoBonesSelected
| NoActivePoseBone
| NoAnimationDataFound
| NoActionFound
| NoValidBonePairs
| SkippingUnexpectedAxis (i : Z)
| InvalidAxisMapping (label : string)
| MappingAxis (i : Z) (label : string) (j : Z) (scale : Z)
| NoKeyframeData (i : Z)
| SourceKeyframe (frame value scaled : Q)
| TargetKeyframe (frame scaled : Q) (j : Z)
| AxisCopied (axis : string)
| AllAxesCopied
| RemapAllCompleted
| NoKeyframesFor (prop : string) (axis : Z)
| Flipped (prop : string) (axis : Z) (bone : string)
| Swapped (source target : string).

Abbreviation Report := (Severity * Message)%type.

(** Python exceptions that leave an operator. *)
Inductive Exn := AttributeError | RuntimeError.

Inductive Outcome := FINISHED | CANCELLED | Raised (e : Exn).

(** What an operator leaves behind: its outcome, the animation data of the
    object afterwards and the reports made, oldest first. *)
Record Result := mkResult {
  outcome : Outcome;
  anim_after : AnimData;
  reports : list Report
}.

(** ** The host interface: F-curve collections and keyframe collections

    These are operations of Blender, not of the add-on; they are modelled
    as its Python interface documents them. *)

Module Host.

(** The point [keyframe_points.insert] creates where the curve has none:
    the coordinate is the one given, the handles and modes are the
    defaults of a new point. *)
Definition new_keyframe (frame value : Q) : Keyframe :=
  {| co := (frame, value);
     handle_left := (frame - 1, value)%Q;
     handle_right := (frame + 1, value)%Q;
     interpolation := BEZIER;
     easing := AUTO;
     handle_left_type := AUTO_CLAMPED;
     handle_right_type := AUTO_CLAMPED |}.

(** Replacing the value of an existing point leaves the rest of it. *)
Definition set_value (kp : Keyframe) (value : Q) : Keyframe :=
  {| co := (fst (co kp), value);
     handle_left := handle_left kp;
     handle_right := handle_right kp;
     interpolation := interpolation kp;
     easing := easing kp;
     handle_left_type := handle_left_type kp;
     handle_right_type := handle_right_type kp |}.

(** [keyframe_points.insert(frame, value)]: the points stay ordered by
    time; a point already at that time has its value replaced.  Returns
    the points and the position of the point inserted. *)
Fixpoint insert (frame value : Q) (pts : list Keyframe)
  : list Keyframe * nat :=
  match pts with
  | [] => ([new_keyframe frame value], 0%nat)
  | p :: rest =>
      match Qcompare frame (fst (co p)) with
      | Lt => (new_keyframe frame value :: p :: rest, 0%nat)
      | Eq => (set_value p value :: rest, 0%nat)
      | Gt => let '(r, i) := insert frame value rest in (p :: r, S i)
      end
  end.

(** [next((fc for fc in action.fcurves if fc.data_path == path and
    fc.array_index == index), None)], as the position of the curve. *)
Definition find_fcurve (act : Action) (path : string) (index : Z)
  : option nat :=
  fst <$> list_find (fun fc => data_path fc = path /\ array_index fc = index) act.

(** [action.fcurves.new(data_path=path, index=index)]: a curve without
    points, appended to the collection.  Returns its position. *)
Definition fcurves_new (act : Action) (path : string) (index : Z)
  : Action * nat :=
  (act ++ [mkFCurve path index []], List.length act).

(** Writing the keyframe points of the curve at position [k]. *)
Definition set_points (act : Action) (k : nat) (pts : list Keyframe)
  : Action :=
  alter (fun fc => mkFCurve (data_path fc) (array_index fc) pts) k act.

(** The keyframe points of the curve at position [k]. *)
Definition points (act : Action) (k : nat) : list Keyframe :=
  match act !! k with
  | Some fc => keyframe_points fc
  | None => []
  end.

(** [fcurve.keyframe_points.clear()] *)
Definition clear (act : Action) (k : nat) : Action := set_points act k [].

(** [fcurve.keyframe_points.insert(frame, value)] on the curve at [k] *)
Definition insert_at (act : Action) (k : nat) (frame value : Q)
  : Action * nat :=
  let '(pts, pos) := insert frame value (points act k) in
  (set_points act k pts, pos).

(** [fcurve.update()] puts the points of the curve in time order; the
    order of points at equal times is kept.  (It also refits the handles
    of automatic type, which is the curve fitting of the host and is not
    modelled.) *)
Fixpoint place (kp : Keyframe) (pts : list Keyframe) : list Keyframe :=
  match pts with
  | [] => [kp]
  | p :: rest =>
      match Qcompare (fst (co kp)) (fst (co p)) with
      | Lt => kp :: p :: rest
      | _ => p :: place kp rest
      end
  end.

Definition update (pts : list Keyframe) : list Keyframe :=
  foldl (fun acc kp => place kp acc) [] pts.

End Host.

(** ** Paths and the axis table *)

Definition dquote : string := String "034"%char EmptyString.

(** [f'pose.bones["{bone}"].{prop}'] *)
Definition pose_path (bone prop : string) : string :=
  "pose.bones[" +:+ dquote +:+ bone +:+ dquote +:+ "]." +:+ prop.

(** The dictionary [axis_mapping]; [None] when the label is not a key. *)
Definition axis_mapping (label : string) : option (Z * Z) :=
  if String.eqb label "X+" then Some (0, 1)
  else if String.eqb label "X-" then Some (0, -1)
  else if String.eqb label "Y+" then Some (1, 1)
  else if String.eqb label "Y-" then Some (1, -1)
  else if String.eqb label "Z+" then Some (2, 1)
  else if String.eqb label "Z-" then Some (2, -1)
  else None.

(** The state the copy loops thread: the action and the reports so far. *)
Abbreviation LoopState := (Action * list Report)%type.

Definition report (sev : Severity) (m : Message) (st : LoopState)
  : LoopState :=
  (fst st, snd st ++ [(sev, m)]).

(** The inner loop of the copy:
    [for keyframe in fcurve.keyframe_points: ... insert(co[0], co[1] * scale)]
    over the points [src] of the source curve, into the curve at [k]. *)
Fixpoint copy_points (src : list Keyframe) (k : nat) (scale j : Z)
  (st : LoopState) : LoopState :=
  match src with
  | [] => st
  | keyframe :: rest =>
      let scaled_value := (snd (co keyframe) * inject_Z scale)%Q in
      let st1 :=
        report INFO (SourceKeyframe (fst (co keyframe)) (snd (co keyframe))
                       scaled_value) st in
      let act2 :=
        fst (Host.insert_at (fst st1) k (fst (co keyframe)) scaled_value) in
      let st3 :=
        report INFO (TargetKeyframe (fst (co keyframe)) scaled_value j)
          (act2, snd st1) in
      copy_points rest k scale j st3
  end.

(** The body of [for fcurve in action.fcurves:] of
    [CopyBoneKeyframesOperator.execute], for the curve at position [i].
    [RemapAllBonesOperator.execute] repeats the same body word for word.
    The points of the source curve are read when the inner loop starts. *)
Definition copy_fcurve (source_bone target_bone : Bone)
  (source_axes : list string) (replace_all : bool) (i : nat)
  (st : LoopState) : LoopState :=
  match fst st !! i with
  | None => st
  | Some fcurve =>
      if negb (PyStr.startswith (data_path fcurve)
                 (pose_path source_bone "location")) then st
      else
        let property_name := PyStr.last_segment (data_path fcurve) in
        let source_axis_index := array_index fcurve in
        if (source_axis_index <? 0)
           || (source_axis_index >=? Z.of_nat (List.length source_axes))
        then report WARNING (SkippingUnexpectedAxis source_axis_index) st
        else
          match source_axes !! Z.to_nat source_axis_index with
          | None => st
          | Some target_axis =>
              match axis_mapping target_axis with
              | None => report WARNING (InvalidAxisMapping target_axis) st
              | Some (target_axis_index, scale) =>
                  let st1 :=
                    report INFO (MappingAxis source_axis_index target_axis
                                   target_axis_index scale) st in
                  let target_path := pose_path target_bone property_name in
                  let '(act2, k) :=
                    match Host.find_fcurve (fst st1) target_path
                            target_axis_index with
                    | Some k => (fst st1, k)
                    | None =>
                        Host.fcurves_new (fst st1) target_path
                          target_axis_index
                    end in
                  let act3 :=
                    if replace_all then Host.clear act2 k else act2 in
                  match Host.points act3 i with
                  | [] =>
                      report WARNING (NoKeyframeData source_axis_index)
                        (act3, snd st1)
                  | src =>
                      copy_points src k scale target_axis_index
                        (act3, snd st1)
                  end
              end
          end
  end.

(** [for fcurve in action.fcurves:] ranges over the curves the action has
    when the loop starts; the curves the body appends are curves of the
    target bone. *)
Definition copy_loop (source_bone target_bone : Bone)
  (source_axes : list string) (replace_all : bool) (st : LoopState)
  : LoopState :=
  foldl (fun s i => copy_fcurve source_bone target_bone source_axes
                      replace_all i s)
    st (seq 0 (List.length (fst st))).

(** ** Operators *)

Definition with_anim (context : Context) (a : AnimData) : Context :=
  mkContext
    (match object context with
     | Some obj => Some (mkObject (obj_type obj) (pose_bones obj) a)
     | None => None
     end)
    (selected_pose_bones context) (active_pose_bone context) (scene context).

Definition anim_of (context : Context) : AnimData :=
  match object context with
  | Some obj => animation_data obj
  | None => None
  end.

(** [self.report({sev}, m); return {'CANCELLED'}] *)
Definition cancel (context : Context) (log : list Report) (sev : Severity)
  (m : Message) : Result :=
  mkResult CANCELLED (anim_of context) (log ++ [(sev, m)]).

Definition is_armature (obj : Object) : bool :=
  match obj_type obj with
  | ARMATURE => true
  | _ => false
  end.

(** The axis labels and the replace flag of the primary or the secondary
    mapping. *)
Definition profile (sc : Scene) (secondary : bool) : list string * bool :=
  if secondary then
    ([secondary_x_axis sc; secondary_y_axis sc; secondary_z_axis sc],
     secondary_replace_all_keyframes sc)
  else
    ([source_x_axis sc; source_y_axis sc; source_z_axis sc],
     replace_all_keyframes sc).

Module CopyBoneKeyframesOperator.

Definition execute (axis : string) (use_secondary_mapping : bool)
  (context : Context) : Result :=
  match object context with
  | None => cancel context [] ERROR NotAnArmature
  | Some obj =>
      if negb (is_armature obj) then cancel context [] ERROR NotAnArmature
      else
        match selected_pose_bones context with
        | [bone0; bone1] =>
            match active_pose_bone context with
            | None => cancel context [] ERROR ActiveNotSelected
            | Some active_bone =>
                if negb (bool_decide (active_bone = bone0)
                         || bool_decide (active_bone = bone1))
                then cancel context [] ERROR ActiveNotSelected
                else
                  let source_bone :=
                    if bool_decide (bone1 = active_bone) then bone0
                    else bone1 in
                  let target_bone := active_bone in
                  let '(source_axes, replace_all) :=
                    profile (scene context) use_secondary_mapping in
                  match animation_data obj with
                  | None =>
                      mkResult (Raised AttributeError) (anim_of context) []
                  | Some None =>
                      cancel context [] ERROR NoAnimationDataFound
                  | Some (Some action) =>
                      let st :=
                        copy_loop source_bone target_bone source_axes
                          replace_all (action, []) in
                      mkResult FINISHED (Some (Some (fst st)))
                        (snd st ++ [(INFO, AxisCopied axis)])
                  end
            end
        | _ => cancel context [] ERROR SelectExactlyTwo
        end
  end.

End CopyBoneKeyframesOperator.

(** [bpy.ops.object.<operator>(...)] called from a script: the operator
    runs on the current context; a report at error severity, like an
    exception in the operator, reaches the caller as an exception. *)
Definition has_error (log : list Report) : bool :=
  existsb (fun r => match fst r with ERROR => true | _ => false end) log.

Module CopyAllAxesKeyframesOperator.

(** [for axis in ['X', 'Y', 'Z']: bpy.ops.object.copy_bone_keyframes(...)] *)
Fixpoint call_each (axes : list string) (use_secondary_mapping : bool)
  (context : Context) (log : list Report) : Result :=
  match axes with
  | [] =>
      mkResult FINISHED (anim_of context) (log ++ [(INFO, AllAxesCopied)])
  | axis :: rest =>
      let r :=
        CopyBoneKeyframesOperator.execute axis use_secondary_mapping
          context in
      match outcome r with
      | Raised e => mkResult (Raised e) (anim_after r) (log ++ reports r)
      | _ =>
          if has_error (reports r)
          then mkResult (Raised RuntimeError) (anim_after r)
                 (log ++ reports r)
          else call_each rest use_secondary_mapping
                 (with_anim context (anim_after r)) (log ++ reports r)
      end
  end.

Definition execute (use_secondary_mapping : bool) (context : Context)
  : Result :=
  match object context with
  | None => cancel context [] ERROR NotAnArmature
  | Some obj =>
      if negb (is_armature obj) then cancel context [] ERROR NotAnArmature
      else
        match selected_pose_bones context with
        | [bone0; bone1] =>
            match active_pose_bone context with
            | None => cancel context [] ERROR ActiveNotSelected
            | Some active_bone =>
                if negb (bool_decide (active_bone = bone0)
                         || bool_decide (active_bone = bone1))
                then cancel context [] ERROR ActiveNotSelected
                else call_each ["X"; "Y"; "Z"] use_secondary_mapping
                       context []
            end
        | _ => cancel context [] ERROR SelectExactlyTwo
        end
  end.

End CopyAllAxesKeyframesOperator.

Module RemapAllBonesOperator.

(** The pairing loop: [bone_pairs], as (source bone, target bone). *)
Fixpoint pair_bones (obj : Object) (selected_bones : list Bone)
  (primary_suffix : string) (bones : list Bone) : list (Bone * Bone) :=
  match bones with
  | [] => []
  | bone :: rest =>
      let tail := pair_bones obj selected_bones primary_suffix rest in
      if PyStr.endswith bone primary_suffix then
        let base_name :=
          PyStr.slice_to_neg bone (String.length primary_suffix) in
        if bool_decide (base_name ∈ pose_bones obj)
           && bool_decide (base_name ∈ selected_bones)
        then (base_name, bone) :: tail
        else tail
      else tail
  end.

(** The mapping used for a pair: [if secondary_mapper in source_bone.name] *)
Definition uses_secondary (sc : Scene) (source_bone : Bone) : bool :=
  PyStr.contains source_bone (secondary_mapper sc).

(** [for source_bone, target_bone in bone_pairs:] *)
Fixpoint remap_pairs (sc : Scene) (pairs : list (Bone * Bone))
  (anim : AnimData) (log : list Report) : Result :=
  match pairs with
  | [] => mkResult FINISHED anim (log ++ [(INFO, RemapAllCompleted)])
  | (source_bone, target_bone) :: rest =>
      let '(source_axes, replace_all) :=
        profile sc (uses_secondary sc source_bone) in
      match anim with
      | None => mkResult (Raised AttributeError) anim log
      | Some None =>
          mkResult CANCELLED anim (log ++ [(ERROR, NoAnimationDataFound)])
      | Some (Some action) =>
          let st :=
            copy_loop source_bone target_bone source_axes replace_all
              (action, log) in
          remap_pairs sc rest (Some (Some (fst st))) (snd st)
      end
  end.

Definition execute (context : Context) : Result :=
  match object context with
  | None => cancel context [] ERROR NotAnArmature
  | Some obj =>
      if negb (is_armature obj) then cancel context [] ERROR NotAnArmature
      else
        match selected_pose_bones context with
        | [] => cancel context [] ERROR NoBonesSelected
        | selected_bones =>
            let bone_pairs :=
              pair_bones obj selected_bones
                (primary_suffix (scene context)) selected_bones in
            match bone_pairs with
            | [] => cancel context [] WARNING NoValidBonePairs
            | _ =>
                remap_pairs (scene context) bone_pairs
                  (animation_data obj) []
            end
        end
  end.

End RemapAllBonesOperator.

Module FlipKeyframeAxisOperator.

(** The body of [for kp in fcurve.keyframe_points:]; [x *= -1] on the
    second component of [co] and of both handles. *)
Definition flip_point (kp : Keyframe) : Keyframe :=
  {| co := (fst (co kp), snd (co kp) * inject_Z (-1))%Q;
     handle_left :=
       (fst (handle_left kp), snd (handle_left kp) * inject_Z (-1))%Q;
     handle_right :=
       (fst (handle_right kp), snd (handle_right kp) * inject_Z (-1))%Q;
     interpolation := interpolation kp;
     easing := easing kp;
     handle_left_type := handle_left_type kp;
     handle_right_type := handle_right_type kp |}.

Definition execute (property : string) (axis : Z) (context : Context)
  : Result :=
  match object context with
  | None => cancel context [] ERROR NotAnArmature
  | Some obj =>
      if negb (is_armature obj) then cancel context [] ERROR NotAnArmature
      else
        match active_pose_bone context with
        | None => cancel context [] ERROR NoActivePoseBone
        | Some pose_bone =>
            match animation_data obj with
            | None | Some None => cancel context [] ERROR NoActionFound
            | Some (Some action) =>
                let data_path := pose_path pose_bone property in
                match Host.find_fcurve action data_path axis with
                | None =>
                    cancel context [] WARNING (NoKeyframesFor property axis)
                | Some k =>
                    let flipped := flip_point <$> Host.points action k in
                    mkResult FINISHED
                      (Some (Some (Host.set_points action k
                                     (Host.update flipped))))
                      [(INFO, Flipped property axis pose_bone)]
                end
            end
        end
  end.

End FlipKeyframeAxisOperator.

(** The dictionary [copy_keyframe_data] builds from a point. *)
Record KeyframeData := mkKeyframeData {
  d_co : Q * Q;
  d_handle_left : Q * Q;
  d_handle_right : Q * Q;
  d_interpolation : Interpolation;
  d_easing : Easing;
  d_handle_left_type : HandleType;
  d_handle_right_type : HandleType
}.

Definition copy_keyframe_data (kp : Keyframe) : KeyframeData :=
  {| d_co := co kp;
     d_handle_left := handle_left kp;
     d_handle_right := handle_right kp;
     d_interpolation := interpolation kp;
     d_easing := easing kp;
     d_handle_left_type := handle_left_type kp;
     d_handle_right_type := handle_right_type kp |}.

(** [apply_keyframe_data] leaves the coordinate of the point. *)
Definition apply_keyframe_data (kp : Keyframe) (data : KeyframeData)
  : Keyframe :=
  {| co := co kp;
     handle_left := d_handle_left data;
     handle_right := d_handle_right data;
     interpolation := d_interpolation data;
     easing := d_easing data;
     handle_left_type := d_handle_left_type data;
     handle_right_type := d_handle_right_type data |}.

Module SwapKeyframesOperator.

Definition transform_properties : list string :=
  ["location"; "rotation_euler"; "rotation_quaternion"; "scale"].

(** [range(3 if prop != 'rotation_quaternion' else 4)] *)
Definition axis_range (prop : string) : list Z :=
  if String.eqb prop "rotation_quaternion" then [0; 1; 2; 3]
  else [0; 1; 2].

(** [kp = fcurve.keyframe_points.insert(co[0], co[1]);
    apply_keyframe_data(kp, data)] on the curve at position [k]. *)
Definition insert_data (k : nat) (act : Action) (data : KeyframeData)
  : Action :=
  let '(pts, pos) :=
    Host.insert (fst (d_co data)) (snd (d_co data)) (Host.points act k) in
  Host.set_points act k
    (alter (fun kp => apply_keyframe_data kp data) pos pts).

(** The body of the two nested loops, for one property and axis. *)
Definition swap_axis (source_bone target_bone : Bone) (act : Action)
  (pa : string * Z) : Action :=
  let '(prop, axis_index) := pa in
  let source_path := pose_path source_bone prop in
  let target_path := pose_path target_bone prop in
  match Host.find_fcurve act source_path axis_index,
        Host.find_fcurve act target_path axis_index with
  | Some i, Some k =>
      let source_data := copy_keyframe_data <$> Host.points act i in
      let target_data := copy_keyframe_data <$> Host.points act k in
      let act1 := Host.clear act i in
      let act2 := Host.clear act1 k in
      let act3 := foldl (insert_data k) act2 source_data in
      foldl (insert_data i) act3 target_data
  | _, _ => act
  end.

(** The (property, axis) combinations in the order the loops visit. *)
Definition combinations : list (string * Z) :=
  prop ← transform_properties; (fun a => (prop, a)) <$> axis_range prop.

Definition execute (context : Context) : Result :=
  match object context with
  | None => cancel context [] ERROR NotAnArmature
  | Some obj =>
      if negb (is_armature obj) then cancel context [] ERROR NotAnArmature
      else
        match selected_pose_bones context with
        | [bone0; bone1] =>
            match active_pose_bone context with
            | None => cancel context [] ERROR ActiveNotSelected
            | Some active_bone =>
                if negb (bool_decide (active_bone = bone0)
                         || bool_decide (active_bone = bone1))
                then cancel context [] ERROR ActiveNotSelected
                else
                  let source_bone :=
                    if bool_decide (bone1 = active_bone) then bone0
                    else bone1 in
                  let target_bone := active_bone in
                  match animation_data obj with
                  | None | Some None =>
                      cancel context [] ERROR NoAnimationDataFound
                  | Some (Some action) =>
                      mkResult FINISHED
                        (Some (Some (foldl (swap_axis source_bone
                                              target_bone)
                                       action combinations)))
                        [(INFO, Swapped source_bone target_bone)]
                  end
            end
        | _ => cancel context [] ERROR SelectExactlyTwo
        end
  end.

End SwapKeyframesOperator.

(** ** Definitions used to state the properties *)

(** The last four characters of a string, last first; they tell the
    transform properties apart. *)
Definition tail4 (s : string) : string :=
  PyStr.take 4 (String.rev s).

(** [p] occurs in [s]: the substring relation the specification speaks
    of. *)
Definition is_substring (p s : string) : Prop :=
  exists a b, s = a +:+ p +:+ b.

(** The scene as [register()] leaves it in Psychos Helpers.py. *)
Definition default_scene : Scene :=
  {| source_x_axis := "X+"; source_y_axis := "Y+"; source_z_axis := "Z+";
     replace_all_keyframes := true;
     secondary_x_axis := "X+"; secondary_y_axis := "Y+";
     secondary_z_axis := "Z+";
     secondary_replace_all_keyframes := true;
     primary_mapper := ""; primary_suffix := "";
     secondary_mapper := ""; secondary_suffix := "" |}.

(** A point as [keyframe_points.insert] creates it. *)
Definition key (frame value : Q) : Keyframe := Host.new_keyframe frame value.

(** The (frame, value) pairs of the points of a curve. *)
Definition coords (pts : list Keyframe) : list (Q * Q) := co <$> pts.

(** The frame and the value of a point. *)
Definition time (kp : Keyframe) : Q := fst (co kp).
Definition value (kp : Keyframe) : Q := snd (co kp).

(** The points are in time order. *)
Fixpoint time_ordered (pts : list Keyframe) : bool :=
  match pts with
  | p :: (q :: _) as rest => Qle_bool (time p) (time q) && time_ordered rest
  | _ => true
  end.

(** The points are in time order and no two are at the same time. *)
Fixpoint strictly_ordered (pts : list Keyframe) : bool :=
  match pts with
  | p :: (q :: _) as rest =>
      match Qcompare (time p) (time q) with
      | Lt => strictly_ordered rest
      | _ => false
      end
  | _ => true
  end.


(** An action with one scale curve of the bone Arm. *)
Definition scale_action : Action :=
  [mkFCurve (pose_path "Arm" "scale") 1
     [mkKeyframe (1, 2)%Q (0, 3 # 2)%Q (2, 5 # 2)%Q LINEAR AUTO FREE VECTOR;
      key 10 (-3)]].

(** [keyframe_points.insert(frame, value)], as the points it leaves. *)
Definition ins (frame value : Q) (pts : list Keyframe) : list Keyframe :=
  fst (Host.insert frame value pts).

(** The insertion of (frame, value) pairs, in order. *)
Definition insert_all (src : list (Q * Q)) (pts : list Keyframe)
  : list Keyframe :=
  foldl (fun acc fv => ins (fst fv) (snd fv) acc) pts src.

(** The (frame, value * scale) pairs the copy inserts for the points
    [src] of a source curve. *)
Definition scaled (scale : Z) (src : list Keyframe) : list (Q * Q) :=
  (fun kp => (time kp, (value kp * inject_Z scale)%Q)) <$> src.

(** What the copy of one source curve does to the points of its target:
    the points are dropped first when all keyframes are replaced. *)
Definition transfer (replace_all : bool) (scale : Z) (src : list Keyframe)
  (pts : list Keyframe) : list Keyframe :=
  insert_all (scaled scale src) (if replace_all then [] else pts).

(** The curve at [path] and [index] gets its points changed by [f]; it is
    created without points first when the action has none. *)
Definition modify (act : Action) (path : string) (index : Z)
  (f : list Keyframe -> list Keyframe) : Action :=
  match Host.find_fcurve act path index with
  | Some k => Host.set_points act k (f (Host.points act k))
  | None => act ++ [mkFCurve path index (f [])]
  end.

(** The target (path, index) and the scale of a curve that the copy from
    [source_bone] to [target_bone] takes as a source; [None] for the curves
    it passes over. *)
Definition source_target (source_bone target_bone : Bone)
  (source_axes : list string) (fc : FCurve) : option (string * Z * Z) :=
  if PyStr.startswith (data_path fc) (pose_path source_bone "location")
  then
    if (array_index fc <? 0)
       || (array_index fc >=? Z.of_nat (List.length source_axes))
    then None
    else
      match source_axes !! Z.to_nat (array_index fc) with
      | Some label =>
          match axis_mapping label with
          | Some (j, scale) =>
              Some (pose_path target_bone
                      (PyStr.last_segment (data_path fc)), j, scale)
          | None => None
          end
      | None => None
      end
  else None.

(** The (path, index) of the curves of an action, in order. *)
Definition keys (act : Action) : list (string * Z) :=
  (fun fc => (data_path fc, array_index fc)) <$> act.

(** The keyframe points of the channel at [path] and [index]; [None] when
    the action has no such curve. *)
Definition channel (act : Action) (path : string) (index : Z)
  : option (list Keyframe) :=
  Host.points act <$> Host.find_fcurve act path index.

(** The curve at position [i] of [act] is a location curve of
    [source_bone] whose axis label, among [source_axes], resolves to the
    target index [j] and the sign [scale]; its points are [src]. *)
Definition location_source (act : Action) (i : nat) (source_bone : Bone)
  (source_axes : list string) (j scale : Z) (src : list Keyframe) : Prop :=
  exists fc label,
    act !! i = Some fc
    /\ data_path fc = pose_path source_bone "location"
    /\ 0 <= array_index fc
    /\ source_axes !! Z.to_nat (array_index fc) = Some label
    /\ axis_mapping label = Some (j, scale)
    /\ keyframe_points fc = src.

(** The primary mapping sends the source X axis to Y-. *)
Definition x_to_minus_y (replace_all : bool) : Scene :=
  {| source_x_axis := "Y-"; source_y_axis := "Y+"; source_z_axis := "Z+";
     replace_all_keyframes := replace_all;
     secondary_x_axis := "X+"; secondary_y_axis := "Y+";
     secondary_z_axis := "Z+";
     secondary_replace_all_keyframes := true;
     primary_mapper := ""; primary_suffix := "_ik";
     secondary_mapper := ""; secondary_suffix := "" |}.

(** The bone Arm has the points (1, 2) and (10, -3) on its location X
    curve; the bone Hand has the points [old] on its location Y curve. *)
Definition arm_hand_action (old : list Keyframe) : Action :=
  [mkFCurve (pose_path "Arm" "location") 0 [key 1 2; key 10 (-3)];
   mkFCurve (pose_path "Hand" "location") 1 old].

(** Arm and Hand are selected and Hand is active: the copy is from Arm to
    Hand. *)
Definition arm_to_hand (sc : Scene) (act : Action) : Context :=
  mkContext (Some (mkObject ARMATURE ["Arm"; "Hand"] (Some (Some act))))
    ["Arm"; "Hand"] (Some "Hand") sc.

(** The channel of an action left by an operator. *)
Definition channel_after (r : Result) (path : string) (index : Z)
  : option (list Keyframe) :=
  match anim_after r with
  | Some (Some act) => channel act path index
  | _ => None
  end.





(** The bone Arm has a location X curve without points; the bone Hand has
    the point (5, 99) on its location Y curve. *)
Definition empty_arm_action : Action :=
  [mkFCurve (pose_path "Arm" "location") 0 [];
   mkFCurve (pose_path "Hand" "location") 1 [key 5 99]].

(** [kp = keyframe_points.insert(co[0], co[1]); apply_keyframe_data(kp,
    data)], as the points it leaves. *)
Definition put (data : KeyframeData) (pts : list Keyframe) : list Keyframe :=
  let '(pts', pos) :=
    Host.insert (fst (d_co data)) (snd (d_co data)) pts in
  alter (fun kp => apply_keyframe_data kp data) pos pts'.

(** The points of the curves at [i] and [k] change places. *)
Definition exchange (i k : nat) (act : Action) : Action :=
  Host.set_points (Host.set_points act i (Host.points act k)) k
    (Host.points act i).

(** Every curve of the action is strictly ordered in time. *)
Definition all_ordered (act : Action) : bool :=
  forallb (fun fc => strictly_ordered (keyframe_points fc)) act.

(** The positions of the two curves the swap exchanges for a property and
    axis; [None] when one of them is missing. *)
Definition swap_positions (source_bone target_bone : Bone) (act : Action)
  (pa : string * Z) : option (nat * nat) :=
  match Host.find_fcurve act (pose_path source_bone pa.1) pa.2,
        Host.find_fcurve act (pose_path target_bone pa.1) pa.2 with
  | Some i, Some k => Some (i, k)
  | _, _ => None
  end.

(** The context of a swap: an armature with the action [action], the two
    bones [b0] and [b1] selected and [active] the active bone. *)
Definition swap_context (pose : list Bone) (b0 b1 active : Bone)
  (sc : Scene) (action : Action) : Context :=
  mkContext (Some (mkObject ARMATURE pose (Some (Some action)))) [b0; b1]
    (Some active) sc.

(** The bone the swap takes as its source: the selected bone that is not
    the active one. *)
Definition swap_source (b0 b1 active : Bone) : Bone :=
  if bool_decide (b1 = active) then b0 else b1.

(** The bone Arm has a scale Y curve and a location X curve; the bone Hand
    has a location X curve and no scale Y curve. *)
Definition one_scale_action : Action :=
  [mkFCurve (pose_path "Arm" "scale") 1 [key 1 2; key 4 3];
   mkFCurve (pose_path "Arm" "location") 0 [key 1 5];
   mkFCurve (pose_path "Hand" "location") 0
     [mkKeyframe (2, 7)%Q (1, 7)%Q (3, 8)%Q LINEAR EASE_IN FREE VECTOR]].


(** Arm and Hand both have a location X curve and a scale Y curve, with
    points of several shapes; Arm alone has a rotation curve. *)
Definition two_bone_action : Action :=
  [mkFCurve (pose_path "Arm" "location") 0
     [mkKeyframe (1, 2)%Q (0, 3 # 2)%Q (2, 5 # 2)%Q LINEAR AUTO FREE VECTOR;
      key 10 (-3)];
   mkFCurve (pose_path "Hand" "location") 0
     [mkKeyframe (2, 7)%Q (1, 7)%Q (3, 8)%Q CONSTANT EASE_IN ALIGNED FREE];
   mkFCurve (pose_path "Hand" "scale") 1 [key 1 1; key 5 2; key 9 1];
   mkFCurve (pose_path "Arm" "rotation_euler") 2 [key 3 4];
   mkFCurve (pose_path "Arm" "scale") 1 []].

(** The value of the point an insertion at [frame] would replace: the
    walk of [Host.insert] stops at a point of that time.  [None] when the
    insertion would create a point. *)
Fixpoint value_at (frame : Q) (pts : list Keyframe) : option Q :=
  match pts with
  | [] => None
  | p :: rest =>
      match Qcompare frame (time p) with
      | Eq => Some (value p)
      | Lt => None
      | Gt => value_at frame rest
      end
  end.

(** A change of the copy: the (path, index) of a target curve and what
    becomes of its points. *)
Abbreviation Change :=
  (string * Z * (list Keyframe -> list Keyframe))%type.

(** Changes made one after the other. *)
Definition run (changes : list Change) (act : Action) : Action :=
  foldl (fun a ch => modify a ch.1.1 ch.1.2 ch.2) act changes.

(** What the changes at the key [k] make, together, of the points of the
    curve of that key. *)
Definition along (k : string * Z) (changes : list Change)
  (pts : list Keyframe) : list Keyframe :=
  foldl (fun c (ch : Change) => if decide (ch.1 = k) then ch.2 c else c)
    pts changes.

(** The change the copy makes for a curve it takes as a source. *)
Definition change_of (source_bone target_bone : Bone)
  (source_axes : list string) (replace_all : bool) (fc : FCurve)
  : option Change :=
  (fun t : string * Z * Z =>
     (t.1.1, t.1.2, transfer replace_all t.2 (keyframe_points fc)))
  <$> source_target source_bone target_bone source_axes fc.

(** The changes of a copy over an action, in the order of its curves. *)
Definition program (source_bone target_bone : Bone)
  (source_axes : list string) (replace_all : bool) (act : Action)
  : list Change :=
  omap (change_of source_bone target_bone source_axes replace_all) act.

(** The body of the copy loop, on the action alone. *)
Definition copy_step (source_bone target_bone : Bone)
  (source_axes : list string) (replace_all : bool) (act : Action) (i : nat)
  : Action :=
  match act !! i with
  | Some fc =>
      match change_of source_bone target_bone source_axes replace_all fc
      with
      | Some ch => modify act ch.1.1 ch.1.2 ch.2
      | None => act
      end
  | None => act
  end.

(** No path of the target bone reads as a location path of the source
    bone.  This is so whenever the two names differ and hold no double
    quote. *)
Definition separate (source_bone target_bone : Bone) : Prop :=
  forall prop,
    PyStr.startswith (pose_path target_bone prop)
      (pose_path source_bone "location") = false.

(** The action [a] comes from [a0] by changes of the copy: the curves of
    [a0] are in place with their keys, those the copy takes as sources
    with their points, and the curves added are not sources. *)
Definition extends (source_bone target_bone : Bone)
  (source_axes : list string) (a0 a : Action) : Prop :=
  (forall i fc0, a0 !! i = Some fc0 ->
     exists fc, a !! i = Some fc
       /\ data_path fc = data_path fc0
       /\ array_index fc = array_index fc0
       /\ (source_target source_bone target_bone source_axes fc0 <> None ->
           keyframe_points fc = keyframe_points fc0))
  /\ (forall i fc, a !! i = Some fc -> (List.length a0 <= i)%nat ->
        source_target source_bone target_bone source_axes fc = None).

(** The context of a copy: an armature with the animation data [anim], the
    two bones [b0] and [b1] selected and [active] the active bone. *)
Definition copy_context (pose : list Bone) (b0 b1 active : Bone)
  (sc : Scene) (anim : AnimData) : Context :=
  mkContext (Some (mkObject ARMATURE pose anim)) [b0; b1] (Some active) sc.

(** Two results that differ at most in the axis named by the last
    report. *)
Definition same_but_axis_named (axis axis' : string) (r r' : Result)
  : Prop :=
  outcome r = outcome r'
  /\ anim_after r = anim_after r'
  /\ (reports r = reports r'
      \/ exists log,
           reports r = log ++ [(INFO, AxisCopied axis)]
           /\ reports r' = log ++ [(INFO, AxisCopied axis')]).

(** The single-axis copy, whatever its axis, makes the change of every
    location curve of the source bone; and the copy of all axes leaves the
    animation data that one single-axis copy leaves. *)
Definition copies_every_axis (pose : list Bone) (b0 b1 active : Bone)
  (sc : Scene) (anim : AnimData) (axis axis' : string) (secondary : bool)
  : Prop :=
  let context := copy_context pose b0 b1 active sc anim in
  let source_bone := swap_source b0 b1 active in
  let source_axes := fst (profile sc secondary) in
  let replace_all := snd (profile sc secondary) in
  let once := CopyBoneKeyframesOperator.execute axis secondary context in
  same_but_axis_named axis axis' once
    (CopyBoneKeyframesOperator.execute axis' secondary context)
  /\ (forall action, anim = Some (Some action) ->
        outcome once = FINISHED
        /\ anim_after once
           = Some (Some (run (program source_bone active source_axes
                                replace_all action) action))
        /\ forall i j scale src,
             location_source action i source_bone source_axes j scale src ->
             (pose_path active "location", j,
              transfer replace_all scale src)
             ∈ program source_bone active source_axes replace_all action)
  /\ anim_after (CopyAllAxesKeyframesOperator.execute secondary context)
     = anim_after once.

(** Arm has points on all three location curves; Hand has one old point
    on its location Z curve. *)
Definition three_axes_action : Action :=
  [mkFCurve (pose_path "Arm" "location") 0 [key 1 2; key 10 (-3)];
   mkFCurve (pose_path "Arm" "location") 1 [key 1 4];
   mkFCurve (pose_path "Hand" "location") 2 [key 5 99];
   mkFCurve (pose_path "Arm" "location") 2 [key 5 6; key 7 8]].

(** The name holds no double quote. *)
Fixpoint no_dquote (s : string) : bool :=
  match s with
  | EmptyString => true
  | String c rest => negb (Ascii.eqb c "034"%char) && no_dquote rest
  end.



(** An operator that has not finished has left the animation data of the
    object of [context] as it was. *)
Definition untouched_unless_finished (context : Context) (r : Result)
  : Prop :=
  outcome r <> FINISHED -> anim_after r = anim_of context.

(** The body of the copy loop has passed over the curve at [i]: the action
    is as before and one warning, about the axis index of the curve when
    that is not 0, 1 or 2 and about its label otherwise, has been
    reported. *)
Definition passed_over_with_warning (st st' : LoopState) (fc : FCurve)
  (source_axes : list string) : Prop :=
  fst st' = fst st
  /\ snd st'
     = snd st
       ++ [(WARNING,
            match source_axes !! Z.to_nat (array_index fc) with
            | Some label =>
                if (array_index fc <? 0) then
                  SkippingUnexpectedAxis (array_index fc)
                else InvalidAxisMapping label
            | None => SkippingUnexpectedAxis (array_index fc)
            end)].

(** The bone Arm has a curve whose path starts as a location path with
    the index 3, which no location has, and a location X curve. *)
Definition odd_index_action : Action :=
  [mkFCurve (pose_path "Arm" "location") 3 [key 1 2];
   mkFCurve (pose_path "Arm" "location") 0 [key 1 5]].

(** From [before] to [after] only curves of [target_bone] have changed:
    every curve that is not a curve of that bone is in place as it was; no
    curve has gone or changed its path or index; and the curves added are
    curves of that bone with an array index of 0, 1 or 2. *)
Definition only_target_changed (target_bone : Bone)
  (before after : Action) : Prop :=
  (forall i fc, before !! i = Some fc ->
     (forall prop, data_path fc <> pose_path target_bone prop) ->
     after !! i = Some fc)
  /\ (forall i fc, before !! i = Some fc ->
        exists fc', after !! i = Some fc'
          /\ data_path fc' = data_path fc
          /\ array_index fc' = array_index fc)
  /\ (forall i fc, after !! i = Some fc -> (List.length before <= i)%nat ->
        (exists prop, data_path fc = pose_path target_bone prop)
        /\ 0 <= array_index fc <= 2).

(** The operator has left an action, all of whose curves are strictly
    ordered in time. *)
Definition ordered_after (r : Result) : Prop :=
  exists action, anim_after r = Some (Some action)
    /\ all_ordered action = true.



(** After the operator the animation is an action with the curves of
    [action], under the same paths and indices and in the same order, and
    the channel at [path] and [index] is as it was. *)
Definition keeps_curves_and_channel (action : Action) (path : string)
  (index : Z) (r : Result) : Prop :=
  exists action',
    anim_after r = Some (Some action')
    /\ keys action' = keys action
    /\ channel action' path index = channel action path index.

(** The curves of [two_bone_action], and a location X curve of a third
    bone, Leg, with the point (4, 6). *)
Definition three_bone_action : Action :=
  two_bone_action ++ [mkFCurve (pose_path "Leg" "location") 0 [key 4 6]].

(** The single-axis copy from the first bone of [pair] to the second, run
    with the two selected and the second active, with the secondary
    mapping exactly when the secondary keyword occurs in the name of the
    first; the animation data it leaves. *)
Definition copy_pair (pose : list Bone) (sc : Scene) (axis : string)
  (anim : AnimData) (pair : Bone * Bone) : AnimData :=
  anim_after
    (CopyBoneKeyframesOperator.execute axis
       (RemapAllBonesOperator.uses_secondary sc pair.1)
       (copy_context pose pair.1 pair.2 pair.2 sc anim)).

(** The pairs of the remap are the pairs (source, target) of a target
    among the selected bones that is named as the source with the suffix
    added, and a source that is a bone of the armature and selected. *)
Definition paired_by_suffix (obj : Object) (selected_bones : list Bone)
  (suffix : string) : Prop :=
  forall source_bone target_bone,
    (source_bone, target_bone)
      ∈ RemapAllBonesOperator.pair_bones obj selected_bones suffix
          selected_bones
    <-> target_bone ∈ selected_bones
        /\ target_bone = source_bone +:+ suffix
        /\ source_bone ∈ pose_bones obj
        /\ source_bone ∈ selected_bones.
(** * Properties *)

(** ** Strings *)

Section strings.

Lemma app_nil_eq (s : string) : "" +:+ s = s.
Proof. reflexivity. Qed.

Lemma app_cons_eq (c : ascii) (a b : string) :
  String c a +:+ b = String c (a +:+ b).
Proof. reflexivity. Qed.

Lemma app_empty_r (s : string) : s +:+ "" = s.
Proof. induction s; rewrite ?app_cons_eq, ?app_nil_eq; congruence. Qed.

Lemma app_assoc' (a b c : string) : (a +:+ b) +:+ c = a +:+ b +:+ c.
Proof. induction a; rewrite ?app_cons_eq, ?app_nil_eq; congruence. Qed.

Lemma app_length' (a b : string) :
  String.length (a +:+ b) = (String.length a + String.length b)%nat.
Proof.
  induction a; rewrite ?app_cons_eq, ?app_nil_eq; simpl; congruence.
Qed.

Lemma app_inv_tail (a b c : string) : a +:+ c = b +:+ c -> a = b.
Proof.
  revert b.
  induction a as [|x a IH]; intros [|y b] H;
    rewrite ?app_cons_eq, ?app_nil_eq in H; auto.
  - apply (f_equal String.length) in H. simpl in H.
    rewrite app_length' in H. lia.
  - apply (f_equal String.length) in H. simpl in H.
    rewrite app_length' in H. lia.
  - injection H as -> H. f_equal. auto.
Qed.

Lemma startswith_spec (s p : string) :
  PyStr.startswith s p = true <-> exists r, s = p +:+ r.
Proof.
  revert s. induction p as [|c p IH]; intros s; simpl.
  - split; [intros _; exists s; reflexivity | reflexivity].
  - destruct s as [|d s].
    + split; [discriminate|]. intros [r Hr]. discriminate.
    + destruct (Ascii.eqb_spec c d) as [->|Hne].
      * rewrite IH.
        split; intros [r Hr]; exists r; rewrite ?app_cons_eq in *;
          congruence.
      * split; [discriminate|]. intros [r Hr].
        rewrite app_cons_eq in Hr. congruence.
Qed.

Lemma contains_spec (s p : string) :
  PyStr.contains s p = true <-> exists a b, s = a +:+ p +:+ b.
Proof.
  induction s as [|d s IH]; simpl.
  - rewrite orb_false_r.
    change (match p with "" => true | String _ _ => false end)
      with (PyStr.startswith "" p).
    rewrite startswith_spec. split.
    + intros [r Hr]. exists "", r. exact Hr.
    + intros (a & b & H). destruct a; rewrite ?app_cons_eq, ?app_nil_eq in H.
      * eauto.
      * discriminate.
  - rewrite orb_true_iff, IH.
    change (match p with
            | "" => true
            | String c p' => if Ascii.eqb c d then PyStr.startswith s p' else false
            end) with (PyStr.startswith (String d s) p).
    rewrite startswith_spec. split.
    + intros [[r Hr]|(a & b & H)].
      * exists "", r. exact Hr.
      * exists (String d a), b. rewrite app_cons_eq. congruence.
    + intros (a & b & H).
      destruct a as [|x a]; rewrite ?app_cons_eq, ?app_nil_eq in H.
      * left. eauto.
      * right. exists a, b. congruence.
Qed.

Lemma rev_app_spec (a b : string) :
  String.rev_app a b = String.rev_app a "" +:+ b.
Proof.
  revert b. induction a as [|c a IH]; intros b; simpl; auto.
  rewrite (IH (String c b)), (IH (String c "")), app_assoc'. reflexivity.
Qed.

Lemma rev_cons (c : ascii) (a : string) :
  String.rev (String c a) = String.rev a +:+ String c "".
Proof. unfold String.rev. simpl. apply rev_app_spec. Qed.

Lemma rev_app (a b : string) :
  String.rev (a +:+ b) = String.rev b +:+ String.rev a.
Proof.
  induction a as [|c a IH]; rewrite ?app_cons_eq, ?app_nil_eq.
  - change (String.rev "") with "". rewrite app_empty_r. reflexivity.
  - rewrite !rev_cons, IH, app_assoc'. reflexivity.
Qed.

Lemma rev_involutive (a : string) : String.rev (String.rev a) = a.
Proof.
  induction a as [|c a IH]; auto.
  rewrite rev_cons, rev_app, IH. reflexivity.
Qed.

Lemma endswith_spec (s p : string) :
  PyStr.endswith s p = true <-> exists a, s = a +:+ p.
Proof.
  unfold PyStr.endswith. rewrite startswith_spec. split.
  - intros [r Hr]. exists (String.rev r).
    rewrite <- (rev_involutive s), Hr, rev_app, rev_involutive. reflexivity.
  - intros [a ->]. exists (String.rev a). apply rev_app.
Qed.

Lemma take_app (a b : string) : PyStr.take (String.length a) (a +:+ b) = a.
Proof.
  induction a; rewrite ?app_cons_eq, ?app_nil_eq; simpl;
    [destruct b|]; congruence.
Qed.

(** Stripping a suffix that is not empty gives the text before it. *)
Lemma slice_to_neg_app (a p : string) :
  p <> "" -> PyStr.slice_to_neg (a +:+ p) (String.length p) = a.
Proof.
  intros Hp. unfold PyStr.slice_to_neg.
  destruct (String.length p) eqn:E.
  - destruct p; [congruence | discriminate].
  - rewrite <- E, app_length'.
    replace (String.length a + String.length p - String.length p)%nat
      with (String.length a) by lia.
    apply take_app.
Qed.

End strings.

Section paths.

Lemma last_segment_from_nodot (cur w : string) :
  (forall a b, w <> a +:+ "." +:+ b) ->
  PyStr.last_segment_from cur w = cur +:+ w.
Proof.
  revert cur. induction w as [|c w IH]; intros cur Hw; simpl.
  - symmetry. apply app_empty_r.
  - destruct (Ascii.eqb_spec c "."%char) as [->|Hne].
    + exfalso. apply (Hw "" w). reflexivity.
    + rewrite IH, app_assoc'; [reflexivity|].
      intros a b ->. apply (Hw (String c a) b). reflexivity.
Qed.

Lemma last_segment_from_app (cur x w : string) :
  (forall a b, w <> a +:+ "." +:+ b) ->
  PyStr.last_segment_from cur (x +:+ "." +:+ w) = w.
Proof.
  intros Hw. revert cur.
  induction x as [|c x IH]; intros cur;
    rewrite ?app_cons_eq, ?app_nil_eq; simpl.
  - apply (last_segment_from_nodot "" w Hw).
  - destruct (Ascii.eqb c "."%char); apply IH.
Qed.

(** The property name the copy reads off a location path. *)
Lemma last_segment_location (bone : string) :
  PyStr.last_segment (pose_path bone "location") = "location".
Proof.
  assert (E : pose_path bone "location"
              = ("pose.bones[" +:+ dquote +:+ bone +:+ dquote +:+ "]")
                +:+ "." +:+ "location").
  { unfold pose_path. rewrite !app_assoc'. reflexivity. }
  unfold PyStr.last_segment. rewrite E.
  apply last_segment_from_app.
  intros a b H.
  assert (Hin : PyStr.contains "location" "." = true).
  { apply contains_spec. eauto. }
  discriminate.
Qed.

Lemma pose_path_bone_inj (b1 b2 prop : string) :
  pose_path b1 prop = pose_path b2 prop -> b1 = b2.
Proof.
  unfold pose_path. intros H.
  apply (inj (String.app _)) in H. apply (inj (String.app _)) in H.
  rewrite <- !(app_assoc' _ dquote) in H.
  apply app_inv_tail in H. apply app_inv_tail in H. exact H.
Qed.

Lemma rev_length' (p : string) :
  String.length (String.rev p) = String.length p.
Proof.
  induction p as [|c p IH]; [reflexivity|].
  rewrite rev_cons, app_length', IH. simpl. lia.
Qed.

Lemma tail4_app (x p : string) :
  (4 <= String.length p)%nat -> tail4 (x +:+ p) = tail4 p.
Proof.
  intros Hp. unfold tail4. rewrite rev_app.
  assert (Hl : (4 <= String.length (String.rev p))%nat)
    by (rewrite rev_length'; exact Hp).
  destruct (String.rev p) as [|c1 [|c2 [|c3 [|c4 r]]]]; simpl in Hl;
    try lia.
  rewrite !app_cons_eq. reflexivity.
Qed.

End paths.

(** ** Missing animation data *)

Lemma active_among (b0 b1 : Bone) :
  negb (bool_decide (b1 = b0) || bool_decide (b1 = b1)) = false.
Proof. rewrite (bool_decide_true (b1 = b1)), orb_true_r; reflexivity. Qed.

(** With animation data that has no action, the single-axis copy reports
    the error and leaves the animation data as it was. *)
Lemma copy_without_action (axis : string) (secondary : bool) (sc : Scene)
  (pose : list Bone) (b0 b1 : Bone) :
  CopyBoneKeyframesOperator.execute axis secondary
    (mkContext (Some (mkObject ARMATURE pose (Some None))) [b0; b1]
       (Some b1) sc)
  = mkResult CANCELLED (Some None) [(ERROR, NoAnimationDataFound)].
Proof.
  unfold CopyBoneKeyframesOperator.execute. cbn -[bool_decide profile].
  rewrite active_among. destruct (profile sc secondary). reflexivity.
Qed.

(** C4 (the code departs from the claim): on an armature without animation
    data, with two bones selected and one of them active, the single-axis
    copy ends in an AttributeError and reports nothing, and so does the
    remap of a pair; the swap operator, on the same context, reports the
    missing animation data at error severity and is cancelled. *)
Theorem copy_without_animation_data_raises (axis : string)
  (secondary : bool) (sc : Scene) (pose : list Bone) (b0 b1 : Bone) :
  let context :=
    mkContext (Some (mkObject ARMATURE pose None)) [b0; b1] (Some b1) sc in
  CopyBoneKeyframesOperator.execute axis secondary context
    = mkResult (Raised AttributeError) None []
  /\ RemapAllBonesOperator.remap_pairs sc [(b0, b1)] None []
    = mkResult (Raised AttributeError) None []
  /\ SwapKeyframesOperator.execute context
    = mkResult CANCELLED None [(ERROR, NoAnimationDataFound)].
Proof.
  intros context. subst context. repeat split.
  - unfold CopyBoneKeyframesOperator.execute. cbn -[bool_decide profile].
    rewrite active_among. destruct (profile sc secondary). reflexivity.
  - cbn -[profile]. destruct (profile sc _). reflexivity.
  - unfold SwapKeyframesOperator.execute. cbn -[bool_decide].
    rewrite active_among. reflexivity.
Qed.

(** ** The mapping chosen for a pair *)

Lemma uses_secondary_spec (sc : Scene) (source_bone : Bone) :
  RemapAllBonesOperator.uses_secondary sc source_bone = true
  <-> is_substring (secondary_mapper sc) source_bone.
Proof. apply contains_spec. Qed.

(** C5, as claimed, fails: with the empty secondary keyword, which is not
    a non-empty substring of any name, the pair (Arm, Arm_ik) is copied with
    the secondary mapping (X to X-), not with the primary one. *)
Lemma empty_keyword_selects_secondary :
  let sc :=
    {| source_x_axis := "X+"; source_y_axis := "Y+"; source_z_axis := "Z+";
       replace_all_keyframes := true;
       secondary_x_axis := "X-"; secondary_y_axis := "Y+";
       secondary_z_axis := "Z+";
       secondary_replace_all_keyframes := true;
       primary_mapper := ""; primary_suffix := "_ik";
       secondary_mapper := ""; secondary_suffix := "" |} in
  let action := [mkFCurve (pose_path "Arm" "location") 0 [key 1 2]] in
  let context :=
    mkContext (Some (mkObject ARMATURE ["Arm"; "Arm_ik"]
                       (Some (Some action))))
      ["Arm"; "Arm_ik"] (Some "Arm_ik") sc in
  ~ (RemapAllBonesOperator.uses_secondary sc "Arm" = true
     <-> secondary_mapper sc <> "" /\ is_substring (secondary_mapper sc) "Arm")
  /\ anim_after (RemapAllBonesOperator.execute context)
     = Some (Some [mkFCurve (pose_path "Arm" "location") 0 [key 1 2];
                   mkFCurve (pose_path "Arm_ik" "location") 0
                     [key 1 (-2)]]).
Proof.
  split.
  - intros [H _]. destruct (H eq_refl) as [Hne _]. apply Hne. reflexivity.
  - vm_compute. reflexivity.
Qed.

(** C5 (amended): the pair at the head of the pairs is copied with the
    secondary mapping exactly when the secondary keyword occurs in the
    name of the source bone, and with the primary mapping otherwise; the
    empty keyword occurs in every name. *)
Theorem remap_profile_selection (sc : Scene) (source_bone target_bone : Bone)
  (rest : list (Bone * Bone)) (action : Action) (log : list Report) :
  exists secondary : bool,
    (secondary = true <-> is_substring (secondary_mapper sc) source_bone)
    /\ RemapAllBonesOperator.remap_pairs sc
         ((source_bone, target_bone) :: rest) (Some (Some action)) log
       = (let st :=
            copy_loop source_bone target_bone (fst (profile sc secondary))
              (snd (profile sc secondary)) (action, log) in
          RemapAllBonesOperator.remap_pairs sc rest (Some (Some (fst st)))
            (snd st)).
Proof.
  exists (RemapAllBonesOperator.uses_secondary sc source_bone). split.
  - apply uses_secondary_spec.
  - cbn -[profile copy_loop]. destruct (profile sc _). reflexivity.
Qed.

Lemma is_substring_empty (s : string) : is_substring "" s.
Proof. exists "", s. reflexivity. Qed.

(** ** Pairing *)

(** With a suffix that is not empty, the pairs are the bones [target] that
    end in the suffix, with the bone named by the rest of the name,
    provided that bone is in the pose and selected. *)
Lemma pair_bones_spec (obj : Object) (selected_bones bones : list Bone)
  (suffix : string) (source_bone target_bone : Bone) :
  suffix <> "" ->
  (source_bone, target_bone)
    ∈ RemapAllBonesOperator.pair_bones obj selected_bones suffix bones
  <-> target_bone ∈ bones
      /\ target_bone = source_bone +:+ suffix
      /\ source_bone ∈ pose_bones obj
      /\ source_bone ∈ selected_bones.
Proof.
  intros Hs. induction bones as [|bone rest IH];
    cbn [RemapAllBonesOperator.pair_bones].
  - split.
    + intros H. inversion H.
    + intros (H & _). inversion H.
  - destruct (PyStr.endswith bone suffix) eqn:E.
    + apply endswith_spec in E as [a ->].
      rewrite (slice_to_neg_app a suffix Hs).
      destruct (bool_decide (a ∈ pose_bones obj)
                && bool_decide (a ∈ selected_bones)) eqn:B.
      * apply andb_true_iff in B as [B1 B2].
        apply bool_decide_eq_true in B1, B2.
        rewrite !elem_of_cons, IH. split.
        -- intros [H|H]; [|tauto]. injection H as -> ->. tauto.
        -- intros ([H|H] & Ht & Hp & Hsel); [|tauto].
           left. rewrite Ht in H. apply app_inv_tail in H.
           subst a. rewrite Ht. reflexivity.
      * rewrite IH, elem_of_cons. split; [tauto|].
        intros ([H|H] & Ht & Hp & Hsel); [|tauto].
        rewrite Ht in H. apply app_inv_tail in H. subst a.
        apply andb_false_iff in B as [B|B];
          apply bool_decide_eq_false in B; tauto.
    + rewrite IH, elem_of_cons. split; [tauto|].
      intros ([H|H] & Ht & Hp & Hsel); [|tauto].
      subst. assert (PyStr.endswith (source_bone +:+ suffix) suffix = true)
        by (apply endswith_spec; eauto). congruence.
Qed.

(** Without pairs the remap is cancelled with a warning and the animation
    data is left as it was. *)
Lemma remap_without_pairs (obj : Object) (bone : Bone) (rest : list Bone)
  (active : option Bone) (sc : Scene) :
  is_armature obj = true ->
  RemapAllBonesOperator.pair_bones obj (bone :: rest) (primary_suffix sc)
    (bone :: rest) = [] ->
  RemapAllBonesOperator.execute
    (mkContext (Some obj) (bone :: rest) active sc)
  = mkResult CANCELLED (animation_data obj) [(WARNING, NoValidBonePairs)].
Proof.
  intros Ha Hp. unfold RemapAllBonesOperator.execute.
  cbn -[RemapAllBonesOperator.pair_bones]. rewrite Ha, Hp. reflexivity.
Qed.

(** C6 (the code departs from the claim): with the empty suffix, which
    every name ends with and whose removal leaves the name, the selected
    pose bone Arm is not paired: the name is cut to the empty string, no
    pair is formed, and the remap is cancelled for want of pairs. *)
Theorem empty_suffix_pairs_nothing :
  let obj :=
    mkObject ARMATURE ["Arm"]
      (Some (Some [mkFCurve (pose_path "Arm" "location") 0 [key 1 2]])) in
  let context := mkContext (Some obj) ["Arm"] (Some "Arm") default_scene in
  PyStr.endswith "Arm" (primary_suffix default_scene) = true
  /\ "Arm" = "Arm" +:+ primary_suffix default_scene
  /\ "Arm" ∈ pose_bones obj
  /\ "Arm" ∈ selected_pose_bones context
  /\ PyStr.slice_to_neg "Arm" (String.length (primary_suffix default_scene))
     = ""
  /\ RemapAllBonesOperator.pair_bones obj ["Arm"]
       (primary_suffix default_scene) ["Arm"] = []
  /\ RemapAllBonesOperator.execute context
     = mkResult CANCELLED (animation_data obj)
         [(WARNING, NoValidBonePairs)].
Proof.
  cbv zeta. repeat split; try reflexivity; apply list_elem_of_here.
Qed.

(** ** Flipping a curve *)

Lemma time_ordered_cons (p : Keyframe) (pts : list Keyframe) :
  time_ordered (p :: pts) = true -> time_ordered pts = true.
Proof.
  destruct pts as [|q pts]; [reflexivity|].
  cbn [time_ordered]. intros H. apply andb_true_iff in H. tauto.
Qed.

Lemma time_ordered_before (acc : list Keyframe) (x : Keyframe)
  (pts : list Keyframe) :
  time_ordered (acc ++ x :: pts) = true ->
  forall p, p ∈ acc -> (time p <= time x)%Q.
Proof.
  induction acc as [|a acc IH]; intros H p Hp.
  - inversion Hp.
  - assert (Ha : (time a <= time x)%Q).
    { destruct acc as [|b acc].
      - cbn in H. apply andb_true_iff in H as [H _].
        apply Qle_bool_iff. exact H.
      - pose proof (time_ordered_cons _ _ H) as H'.
        cbn [app time_ordered] in H. apply andb_true_iff in H as [H _].
        apply Qle_bool_iff in H.
        eapply Qle_trans; [exact H|].
        apply (IH H'). apply list_elem_of_here. }
    apply elem_of_cons in Hp as [->|Hp]; [exact Ha|].
    apply IH; [|exact Hp]. exact (time_ordered_cons _ _ H).
Qed.

Lemma place_after (x : Keyframe) (acc : list Keyframe) :
  (forall p, p ∈ acc -> (time p <= time x)%Q) ->
  Host.place x acc = acc ++ [x].
Proof.
  induction acc as [|a acc IH]; intros H; [reflexivity|].
  cbn [Host.place app].
  assert (Ha : (time a <= time x)%Q) by (apply H, list_elem_of_here).
  destruct (Qcompare (fst (co x)) (fst (co a))) eqn:E.
  - rewrite IH; [reflexivity|]. intros p Hp. apply H. now right.
  - apply Qlt_alt in E. exfalso. apply (Qlt_not_le _ _ E). exact Ha.
  - rewrite IH; [reflexivity|]. intros p Hp. apply H. now right.
Qed.

Lemma update_from (acc pts : list Keyframe) :
  time_ordered (acc ++ pts) = true ->
  foldl (fun acc kp => Host.place kp acc) acc pts
  = acc ++ pts.
Proof.
  revert acc. induction pts as [|x pts IH]; intros acc H; cbn [foldl].
  - symmetry. apply app_nil_r.
  - rewrite (place_after x acc (time_ordered_before acc x pts H)).
    rewrite IH; rewrite <- app_assoc; [reflexivity | exact H].
Qed.

(** A curve in time order is left as it is by [update]. *)
Lemma update_ordered (pts : list Keyframe) :
  time_ordered pts = true -> Host.update pts = pts.
Proof. intros H. apply (update_from [] pts H). Qed.



(** ** The curve store *)

Lemma find_fcurve_Some (act : Action) (path : string) (index : Z) (k : nat) :
  Host.find_fcurve act path index = Some k <->
  exists fc, act !! k = Some fc
    /\ data_path fc = path /\ array_index fc = index
    /\ forall j y, act !! j = Some y -> (j < k)%nat ->
         ~ (data_path y = path /\ array_index y = index).
Proof.
  unfold Host.find_fcurve. split.
  - intros H. apply fmap_Some in H as ([i fc] & H & ->).
    apply list_find_Some in H as (H1 & [H2 H3] & H4). eauto 10.
  - intros (fc & H1 & H2 & H3 & H4). apply fmap_Some. exists (k, fc).
    split; [|reflexivity]. apply list_find_Some. eauto.
Qed.

Lemma find_fcurve_None (act : Action) (path : string) (index : Z) :
  Host.find_fcurve act path index = None <->
  forall fc, fc ∈ act -> ~ (data_path fc = path /\ array_index fc = index).
Proof.
  unfold Host.find_fcurve. rewrite fmap_None, list_find_None, Forall_forall.
  reflexivity.
Qed.

Lemma find_fcurve_lt (act : Action) (path : string) (index : Z) (k : nat) :
  Host.find_fcurve act path index = Some k -> (k < List.length act)%nat.
Proof.
  intros H. apply find_fcurve_Some in H as (fc & H & _).
  apply lookup_lt_Some in H. exact H.
Qed.

Lemma set_points_length (act : Action) (k : nat) (pts : list Keyframe) :
  List.length (Host.set_points act k pts) = List.length act.
Proof. apply length_alter. Qed.

Lemma points_set_points (act : Action) (k : nat) (pts : list Keyframe) :
  (k < List.length act)%nat -> Host.points (Host.set_points act k pts) k = pts.
Proof.
  intros H. unfold Host.points, Host.set_points.
  rewrite list_lookup_alter_eq.
  destruct (lookup_lt_is_Some_2 act k H) as [fc ->]. reflexivity.
Qed.

Lemma points_set_points_ne (act : Action) (k k' : nat)
  (pts : list Keyframe) :
  k <> k' -> Host.points (Host.set_points act k pts) k' = Host.points act k'.
Proof.
  intros H. unfold Host.points, Host.set_points.
  rewrite list_lookup_alter_ne by exact H. reflexivity.
Qed.

Lemma lookup_set_points_ne (act : Action) (k k' : nat)
  (pts : list Keyframe) :
  k <> k' -> Host.set_points act k pts !! k' = act !! k'.
Proof. intros H. apply list_lookup_alter_ne. exact H. Qed.

Lemma lookup_set_points (act : Action) (k : nat) (pts : list Keyframe)
  (fc : FCurve) :
  act !! k = Some fc ->
  Host.set_points act k pts !! k
  = Some (mkFCurve (data_path fc) (array_index fc) pts).
Proof.
  intros H. unfold Host.set_points. rewrite list_lookup_alter_eq, H.
  reflexivity.
Qed.



(** ** Inserting points *)

Lemma ins_nil (t v : Q) : ins t v [] = [Host.new_keyframe t v].
Proof. reflexivity. Qed.

Lemma ins_cons (t v : Q) (p : Keyframe) (pts : list Keyframe) :
  ins t v (p :: pts)
  = match Qcompare t (time p) with
    | Lt => Host.new_keyframe t v :: p :: pts
    | Eq => Host.set_value p v :: pts
    | Gt => p :: ins t v pts
    end.
Proof.
  unfold ins, time. cbn [Host.insert].
  destruct (Qcompare t (fst (co p))); try reflexivity.
  destruct (Host.insert t v pts). reflexivity.
Qed.

Lemma insert_at_points (act : Action) (k : nat) (t v : Q) :
  fst (Host.insert_at act k t v)
  = Host.set_points act k (ins t v (Host.points act k)).
Proof.
  unfold Host.insert_at, ins.
  destruct (Host.insert t v (Host.points act k)). reflexivity.
Qed.

Lemma set_points_set_points (act : Action) (k : nat)
  (pts pts' : list Keyframe) :
  Host.set_points (Host.set_points act k pts) k pts'
  = Host.set_points act k pts'.
Proof.
  unfold Host.set_points. rewrite list_alter_alter_eq.
  apply list_alter_ext; [|reflexivity]. reflexivity.
Qed.

Lemma set_points_same (act : Action) (k : nat) :
  Host.set_points act k (Host.points act k) = act.
Proof.
  unfold Host.set_points, Host.points. apply list_eq. intros i.
  destruct (decide (k = i)) as [<-|Hne].
  - rewrite list_lookup_alter_eq.
    destruct (act !! k) as [[p a pts]|]; reflexivity.
  - rewrite list_lookup_alter_ne by exact Hne. reflexivity.
Qed.

(** The inner loop of the copy inserts the scaled points, in order, into
    the curve at [k]. *)
Lemma copy_points_action (src : list Keyframe) (k : nat) (scale j : Z)
  (st : LoopState) :
  (k < List.length (fst st))%nat ->
  fst (copy_points src k scale j st)
  = Host.set_points (fst st) k
      (insert_all (scaled scale src) (Host.points (fst st) k)).
Proof.
  revert st. induction src as [|kp src IH]; intros st Hk.
  - cbn. symmetry. apply set_points_same.
  - cbn [copy_points]. rewrite IH.
    + cbn [fst snd report]. rewrite insert_at_points.
      rewrite points_set_points by exact Hk.
      rewrite set_points_set_points. reflexivity.
    + cbn [fst snd report]. rewrite insert_at_points, set_points_length.
      exact Hk.
Qed.

Lemma set_points_app_new (act : Action) (path : string) (index : Z)
  (c pts : list Keyframe) :
  Host.set_points (act ++ [mkFCurve path index c]) (List.length act) pts
  = act ++ [mkFCurve path index pts].
Proof.
  unfold Host.set_points. rewrite alter_app_r_alt by reflexivity.
  replace (List.length act - List.length act)%nat with 0%nat by lia.
  reflexivity.
Qed.

Lemma points_app_new (act : Action) (path : string) (index : Z)
  (c : list Keyframe) :
  Host.points (act ++ [mkFCurve path index c]) (List.length act) = c.
Proof.
  unfold Host.points. rewrite lookup_app_r by reflexivity.
  replace (List.length act - List.length act)%nat with 0%nat by lia.
  reflexivity.
Qed.

Lemma points_app_old (act more : Action) (i : nat) :
  (i < List.length act)%nat -> Host.points (act ++ more) i = Host.points act i.
Proof.
  intros H. unfold Host.points. rewrite lookup_app_l by exact H. reflexivity.
Qed.

Lemma points_lookup (act : Action) (i : nat) (fc : FCurve) :
  act !! i = Some fc -> Host.points act i = keyframe_points fc.
Proof. intros H. unfold Host.points. rewrite H. reflexivity. Qed.

(** The end of the body of the copy loop: the test for source points and
    the inner loop. *)
Lemma copy_tail_action (src : list Keyframe) (k : nat) (scale j i : Z)
  (act : Action) (log : list Report) :
  (k < List.length act)%nat ->
  fst (match src with
       | [] => report WARNING (NoKeyframeData i) (act, log)
       | kp :: rest => copy_points (kp :: rest) k scale j (act, log)
       end)
  = Host.set_points act k (insert_all (scaled scale src) (Host.points act k)).
Proof.
  intros Hk. destruct src as [|kp src].
  - cbn. symmetry. apply set_points_same.
  - apply (copy_points_action (kp :: src) k scale j (act, log) Hk).
Qed.

(** The body of the copy loop, on the action: a curve the copy takes as a
    source, and that is not its own target, has its target changed by
    [transfer]; the action is left as it is by the other curves. *)
Lemma copy_fcurve_action (source_bone target_bone : Bone)
  (source_axes : list string) (replace_all : bool) (i : nat)
  (act : Action) (log : list Report) (fc : FCurve) :
  act !! i = Some fc ->
  (forall path j scale,
      source_target source_bone target_bone source_axes fc
        = Some (path, j, scale) ->
      ~ (data_path fc = path /\ array_index fc = j)) ->
  fst (copy_fcurve source_bone target_bone source_axes replace_all i
         (act, log))
  = match source_target source_bone target_bone source_axes fc with
    | Some (path, j, scale) =>
        modify act path j (transfer replace_all scale (keyframe_points fc))
    | None => act
    end.
Proof.
  intros Hfc Hown. unfold copy_fcurve, source_target in *.
  cbn [fst snd]. rewrite Hfc.
  destruct (PyStr.startswith (data_path fc)
              (pose_path source_bone "location")); [|reflexivity].
  cbn [negb].
  destruct ((array_index fc <? 0)
            || (array_index fc >=? Z.of_nat (List.length source_axes)));
    [reflexivity|].
  destruct (source_axes !! Z.to_nat (array_index fc)) as [label|];
    [|reflexivity].
  destruct (axis_mapping label) as [[j scale]|]; [|reflexivity].
  specialize (Hown _ _ _ eq_refl).
  set (path := pose_path target_bone (PyStr.last_segment (data_path fc)))
    in *.
  pose proof (lookup_lt_Some _ _ _ Hfc) as Hi.
  unfold modify, transfer. cbn [report fst snd].
  destruct (Host.find_fcurve act path j) as [k|] eqn:Hfind.
  - pose proof (find_fcurve_lt _ _ _ _ Hfind) as Hk.
    assert (Hik : k <> i).
    { intros ->. apply find_fcurve_Some in Hfind as (fc' & H1 & H2 & H3 & _).
      rewrite Hfc in H1. injection H1 as <-. tauto. }
    destruct replace_all.
    + unfold Host.clear.
      rewrite points_set_points_ne by exact Hik.
      rewrite (points_lookup _ _ _ Hfc).
      rewrite copy_tail_action by (rewrite set_points_length; exact Hk).
      rewrite points_set_points by exact Hk.
      apply set_points_set_points.
    + rewrite (points_lookup _ _ _ Hfc).
      apply copy_tail_action. exact Hk.
  - unfold Host.fcurves_new.
    assert (Hc : (if replace_all
                  then Host.clear (act ++ [mkFCurve path j []])
                         (List.length act)
                  else act ++ [mkFCurve path j []])
                 = act ++ [mkFCurve path j []]).
    { destruct replace_all; [|reflexivity].
      unfold Host.clear. apply set_points_app_new. }
    rewrite Hc. rewrite (points_app_old _ _ _ Hi), (points_lookup _ _ _ Hfc).
    rewrite copy_tail_action
      by (rewrite length_app; cbn; lia).
    rewrite points_app_new, set_points_app_new.
    destruct replace_all; reflexivity.
Qed.

(** ** Channels *)

Lemma fst_list_find_shift {A : Type} (o : option (nat * A)) :
  fst <$> (prod_map S id <$> o) = S <$> (fst <$> o).
Proof. destruct o as [[k x]|]; reflexivity. Qed.

Lemma find_fcurve_by_keys (act : Action) (path : string) (index : Z) :
  Host.find_fcurve act path index
  = fst <$> list_find (fun key => key.1 = path /\ key.2 = index) (keys act).
Proof.
  unfold Host.find_fcurve, keys.
  induction act as [|fc act IH]; [reflexivity|].
  cbn [fmap list_fmap list_find fst snd].
  destruct (decide (data_path fc = path /\ array_index fc = index));
    [reflexivity|].
  rewrite !fst_list_find_shift. f_equal. exact IH.
Qed.

Lemma find_fcurve_keys (a b : Action) (path : string) (index : Z) :
  keys a = keys b ->
  Host.find_fcurve a path index = Host.find_fcurve b path index.
Proof. intros H. rewrite !find_fcurve_by_keys, H. reflexivity. Qed.

Lemma keys_set_points (act : Action) (k : nat) (pts : list Keyframe) :
  keys (Host.set_points act k pts) = keys act.
Proof.
  unfold keys, Host.set_points. apply list_eq. intros i.
  rewrite !list_lookup_fmap.
  destruct (decide (k = i)) as [<-|Hne].
  - rewrite list_lookup_alter_eq. destruct (act !! k); reflexivity.
  - rewrite list_lookup_alter_ne by exact Hne. reflexivity.
Qed.

Lemma find_fcurve_set_points (act : Action) (k : nat)
  (pts : list Keyframe) (path : string) (index : Z) :
  Host.find_fcurve (Host.set_points act k pts) path index
  = Host.find_fcurve act path index.
Proof. apply find_fcurve_keys, keys_set_points. Qed.

Lemma find_fcurve_app_old (act more : Action) (path : string) (index : Z)
  (k : nat) :
  Host.find_fcurve act path index = Some k ->
  Host.find_fcurve (act ++ more) path index = Some k.
Proof.
  intros H. apply find_fcurve_Some in H as (fc & H1 & H2 & H3 & H4).
  apply find_fcurve_Some. exists fc. repeat split; auto.
  - apply lookup_app_l_Some. exact H1.
  - intros i y Hy Hi. apply (H4 i y); [|exact Hi].
    rewrite lookup_app_l in Hy; [exact Hy|].
    apply lookup_lt_Some in H1. lia.
Qed.

Lemma find_fcurve_app_new (act : Action) (path : string) (index : Z)
  (pts : list Keyframe) :
  Host.find_fcurve act path index = None ->
  Host.find_fcurve (act ++ [mkFCurve path index pts]) path index
  = Some (List.length act).
Proof.
  intros H. apply find_fcurve_Some. exists (mkFCurve path index pts).
  repeat split.
  - rewrite lookup_app_r by reflexivity.
    replace (List.length act - List.length act)%nat with 0%nat by lia.
    reflexivity.
  - intros i y Hy Hi. rewrite lookup_app_l in Hy by exact Hi.
    rewrite find_fcurve_None in H. apply H.
    apply list_elem_of_lookup. eauto.
Qed.

Lemma find_fcurve_app_other (act : Action) (path path' : string)
  (index index' : Z) (pts : list Keyframe) :
  (path', index') <> (path, index) ->
  Host.find_fcurve (act ++ [mkFCurve path index pts]) path' index'
  = Host.find_fcurve act path' index'.
Proof.
  intros Hne.
  destruct (Host.find_fcurve act path' index') as [k|] eqn:E.
  - apply find_fcurve_app_old. exact E.
  - apply find_fcurve_None. intros fc Hfc [H1 H2].
    apply elem_of_app in Hfc as [Hfc|Hfc].
    + rewrite find_fcurve_None in E. apply (E fc Hfc). tauto.
    + apply list_elem_of_singleton in Hfc. subst fc. cbn in *. congruence.
Qed.


(** The other channels are as they were. *)
Lemma channel_modify_other (act : Action) (path path' : string)
  (index index' : Z) (f : list Keyframe -> list Keyframe) :
  (path', index') <> (path, index) ->
  channel (modify act path index f) path' index' = channel act path' index'.
Proof.
  intros Hne. unfold channel, modify.
  destruct (Host.find_fcurve act path index) as [k|] eqn:E.
  - rewrite find_fcurve_set_points.
    destruct (Host.find_fcurve act path' index') as [k'|] eqn:E';
      [|reflexivity].
    cbn. rewrite points_set_points_ne; [reflexivity|].
    intros ->. apply find_fcurve_Some in E as (fc & H1 & H2 & H3 & _).
    apply find_fcurve_Some in E' as (fc' & H1' & H2' & H3' & _).
    congruence.
  - rewrite find_fcurve_app_other by exact Hne.
    destruct (Host.find_fcurve act path' index') as [k'|] eqn:E';
      [|reflexivity].
    cbn. rewrite points_app_old; [reflexivity|].
    eapply find_fcurve_lt. exact E'.
Qed.

(** ** What an insertion leaves *)

Lemma Qcompare_refl (t : Q) : Qcompare t t = Eq.
Proof. apply Qeq_alt. reflexivity. Qed.




Lemma insert_all_cons (fv : Q * Q) (src : list (Q * Q))
  (pts : list Keyframe) :
  insert_all (fv :: src) pts = insert_all src (ins (fst fv) (snd fv) pts).
Proof. reflexivity. Qed.



(** In a strictly ordered curve the points after the first are later. *)
Lemma strictly_ordered_cons (p : Keyframe) (pts : list Keyframe) :
  strictly_ordered (p :: pts) = true ->
  strictly_ordered pts = true /\ forall q, q ∈ pts -> (time p < time q)%Q.
Proof.
  revert p. induction pts as [|q pts IH]; intros p H.
  - split; [reflexivity|]. intros q Hq. inversion Hq.
  - cbn [strictly_ordered] in H.
    destruct (Qcompare (time p) (time q)) eqn:E; try discriminate.
    apply Qlt_alt in E. split; [exact H|].
    intros q' Hq'. apply elem_of_cons in Hq' as [->|Hq']; [exact E|].
    eapply Qlt_trans; [exact E|]. apply (IH q H). exact Hq'.
Qed.


(** ** The copy of one source curve *)

Lemma startswith_refl (s : string) : PyStr.startswith s s = true.
Proof. apply startswith_spec. exists "". symmetry. apply app_empty_r. Qed.

Lemma source_target_location (source_bone target_bone : Bone)
  (source_axes : list string) (fc : FCurve) (label : string) (j scale : Z) :
  data_path fc = pose_path source_bone "location" ->
  0 <= array_index fc ->
  source_axes !! Z.to_nat (array_index fc) = Some label ->
  axis_mapping label = Some (j, scale) ->
  source_target source_bone target_bone source_axes fc
  = Some (pose_path target_bone "location", j, scale).
Proof.
  intros Hp H0 Hl Hm. unfold source_target.
  rewrite Hp, startswith_refl, last_segment_location, Hl, Hm.
  apply lookup_lt_Some in Hl.
  destruct (array_index fc <? 0) eqn:E1; [lia|].
  destruct (array_index fc >=? Z.of_nat (List.length source_axes)) eqn:E2;
    [|reflexivity].
  apply Z.geb_le in E2. lia.
Qed.










(** On the action of the example the single-axis copy finishes, having
    warned, and the point (5, 99) of the target is gone. *)
Lemma empty_source_copy_example :
  let r :=
    CopyBoneKeyframesOperator.execute "X" false
      (arm_to_hand (x_to_minus_y true) empty_arm_action) in
  outcome r = FINISHED
  /\ channel_after r (pose_path "Hand" "location") 1 = Some []
  /\ reports r = [(INFO, MappingAxis 0 "Y-" 1 (-1));
                  (WARNING, NoKeyframeData 0); (INFO, AxisCopied "X")].
Proof. repeat split; reflexivity. Qed.

(** ** Swapping: rebuilding a curve from its copied points *)

Lemma insert_data_put (k : nat) (act : Action) (data : KeyframeData) :
  SwapKeyframesOperator.insert_data k act data
  = Host.set_points act k (put data (Host.points act k)).
Proof.
  unfold SwapKeyframesOperator.insert_data, put.
  destruct (Host.insert _ _ (Host.points act k)). reflexivity.
Qed.

Lemma foldl_insert_data (k : nat) (act : Action)
  (ds : list KeyframeData) :
  foldl (SwapKeyframesOperator.insert_data k) act ds
  = Host.set_points act k
      (foldl (fun pts d => put d pts) (Host.points act k) ds).
Proof.
  destruct (decide (k < List.length act)%nat) as [Hk|Hk].
  - revert act Hk. induction ds as [|d ds IH]; intros act Hk; cbn [foldl].
    + symmetry. apply set_points_same.
    + rewrite IH by (rewrite insert_data_put, set_points_length; exact Hk).
      rewrite insert_data_put, points_set_points by exact Hk.
      apply set_points_set_points.
  - assert (Hid : forall pts, Host.set_points act k pts = act).
    { intros pts. unfold Host.set_points. apply list_eq. intros n.
      destruct (decide (k = n)) as [<-|Hn].
      - rewrite list_lookup_alter_eq.
        rewrite (lookup_ge_None_2 act k) by lia. reflexivity.
      - apply list_lookup_alter_ne. exact Hn. }
    rewrite Hid. induction ds as [|d ds IH]; [reflexivity|].
    cbn [foldl]. rewrite insert_data_put, Hid. exact IH.
Qed.

Lemma apply_copy_new (kp : Keyframe) :
  apply_keyframe_data (Host.new_keyframe (time kp) (value kp))
    (copy_keyframe_data kp) = kp.
Proof. destruct kp as [[t v] hl hr ip ea lt rt]. reflexivity. Qed.

(** A copied point later than all the points is put back as it was, at
    the end. *)
Lemma put_after (kp : Keyframe) (pts : list Keyframe) :
  (forall p, p ∈ pts -> (time p < time kp)%Q) ->
  put (copy_keyframe_data kp) pts = pts ++ [kp].
Proof.
  unfold put. cbn [copy_keyframe_data d_co].
  induction pts as [|p pts IH]; intros H.
  - cbn. f_equal. apply apply_copy_new.
  - cbn [Host.insert].
    assert (Hp : Qcompare (fst (co kp)) (fst (co p)) = Gt).
    { apply Qgt_alt. apply (H p). apply list_elem_of_here. }
    rewrite Hp.
    destruct (Host.insert (fst (co kp)) (snd (co kp)) pts) as [r pos].
    cbn. f_equal. apply IH. intros q Hq. apply H. now right.
Qed.

Lemma strictly_ordered_before (acc : list Keyframe) (x : Keyframe)
  (pts : list Keyframe) :
  strictly_ordered (acc ++ x :: pts) = true ->
  forall p, p ∈ acc -> (time p < time x)%Q.
Proof.
  induction acc as [|a acc IH]; intros H p Hp; [inversion Hp|].
  cbn [app] in H. apply strictly_ordered_cons in H as [H Hlt].
  apply elem_of_cons in Hp as [->|Hp].
  - apply Hlt. apply elem_of_app. right. apply list_elem_of_here.
  - apply IH; assumption.
Qed.

Lemma rebuild_from (acc pts : list Keyframe) :
  strictly_ordered (acc ++ pts) = true ->
  foldl (fun pts d => put d pts) acc (copy_keyframe_data <$> pts)
  = acc ++ pts.
Proof.
  revert acc. induction pts as [|x pts IH]; intros acc H; cbn [foldl fmap].
  - symmetry. apply app_nil_r.
  - cbn [list_fmap foldl].
    rewrite (put_after x acc (strictly_ordered_before acc x pts H)).
    rewrite IH; rewrite <- app_assoc; [reflexivity | exact H].
Qed.

(** The copied points of a strictly ordered curve, put one by one into a
    curve without points, give the curve again. *)
Lemma rebuild (pts : list Keyframe) :
  strictly_ordered pts = true ->
  foldl (fun pts d => put d pts) [] (copy_keyframe_data <$> pts) = pts.
Proof. apply (rebuild_from [] pts). Qed.

(** ** Swapping: the body of the loops *)

(** An action is its keys and the points of its curves. *)
Lemma action_eq (a b : Action) :
  keys a = keys b -> (forall n, Host.points a n = Host.points b n) -> a = b.
Proof.
  intros Hk Hp. apply list_eq. intros n.
  assert (Hkn : keys a !! n = keys b !! n) by (rewrite Hk; reflexivity).
  specialize (Hp n). unfold keys, Host.points in *.
  rewrite !list_lookup_fmap in Hkn.
  destruct (a !! n) as [[pa ia ca]|], (b !! n) as [[pb ib cb]|];
    cbn in *; congruence.
Qed.

Lemma points_ge (act : Action) (n : nat) :
  (List.length act <= n)%nat -> Host.points act n = [].
Proof.
  intros H. unfold Host.points. rewrite lookup_ge_None_2 by exact H.
  reflexivity.
Qed.

Lemma points_set_points_eq (act : Action) (k n : nat)
  (pts : list Keyframe) :
  (k < List.length act)%nat ->
  Host.points (Host.set_points act k pts) n
  = if decide (n = k) then pts else Host.points act n.
Proof.
  intros Hk. destruct (decide (n = k)) as [->|Hn].
  - apply points_set_points. exact Hk.
  - apply points_set_points_ne. congruence.
Qed.

Lemma keys_exchange (i k : nat) (act : Action) :
  keys (exchange i k act) = keys act.
Proof. unfold exchange. rewrite !keys_set_points. reflexivity. Qed.

Lemma length_keys (a b : Action) :
  keys a = keys b -> List.length a = List.length b.
Proof.
  intros H. apply (f_equal List.length) in H. unfold keys in H.
  rewrite !length_fmap in H. exact H.
Qed.

Lemma points_exchange (i k n : nat) (act : Action) :
  (i < List.length act)%nat -> (k < List.length act)%nat -> i <> k ->
  Host.points (exchange i k act) n
  = if decide (n = k) then Host.points act i
    else if decide (n = i) then Host.points act k
    else Host.points act n.
Proof.
  intros Hi Hk Hik. unfold exchange.
  rewrite points_set_points_eq by (rewrite set_points_length; exact Hk).
  destruct (decide (n = k)); [reflexivity|].
  apply points_set_points_eq. exact Hi.
Qed.

(** The body of the swap loops leaves the keys of the action, and the
    points of every curve but the two it finds. *)
Lemma swap_axis_frame (source_bone target_bone : Bone) (act : Action)
  (pa : string * Z) :
  keys (SwapKeyframesOperator.swap_axis source_bone target_bone act pa)
  = keys act
  /\ forall n,
       Host.find_fcurve act (pose_path source_bone pa.1) pa.2 <> Some n ->
       Host.find_fcurve act (pose_path target_bone pa.1) pa.2 <> Some n ->
       Host.points
         (SwapKeyframesOperator.swap_axis source_bone target_bone act pa) n
       = Host.points act n.
Proof.
  destruct pa as [prop axis]. unfold SwapKeyframesOperator.swap_axis.
  cbn [fst snd].
  destruct (Host.find_fcurve act (pose_path source_bone prop) axis)
    as [i|]; [|split; reflexivity].
  destruct (Host.find_fcurve act (pose_path target_bone prop) axis)
    as [k|]; [|split; reflexivity].
  rewrite !foldl_insert_data. unfold Host.clear. split.
  - rewrite !keys_set_points. reflexivity.
  - intros n Hi Hk.
    rewrite !points_set_points_ne by congruence. reflexivity.
Qed.

(** On strictly ordered curves the body of the swap loops exchanges the
    points of the two curves it finds. *)
Lemma swap_axis_exchange (source_bone target_bone : Bone) (act : Action)
  (pa : string * Z) (i k : nat) :
  swap_positions source_bone target_bone act pa = Some (i, k) ->
  i <> k ->
  strictly_ordered (Host.points act i) = true ->
  strictly_ordered (Host.points act k) = true ->
  SwapKeyframesOperator.swap_axis source_bone target_bone act pa
  = exchange i k act.
Proof.
  destruct pa as [prop axis].
  unfold swap_positions, SwapKeyframesOperator.swap_axis. cbn [fst snd].
  destruct (Host.find_fcurve act (pose_path source_bone prop) axis)
    as [i'|] eqn:Ei; [|discriminate].
  destruct (Host.find_fcurve act (pose_path target_bone prop) axis)
    as [k'|] eqn:Ek; [|discriminate].
  intros H Hik Hoi Hok. injection H as -> ->.
  pose proof (find_fcurve_lt _ _ _ _ Ei) as Hi.
  pose proof (find_fcurve_lt _ _ _ _ Ek) as Hk.
  rewrite !foldl_insert_data. unfold Host.clear.
  set (act1 := Host.set_points act i []).
  set (act2 := Host.set_points act1 k []).
  assert (H2k : Host.points act2 k = []).
  { apply points_set_points. unfold act1. rewrite set_points_length.
    exact Hk. }
  rewrite H2k, (rebuild _ Hoi).
  set (act3 := Host.set_points act2 k (Host.points act i)).
  assert (H3i : Host.points act3 i = []).
  { unfold act3, act2. rewrite !points_set_points_ne by congruence.
    apply points_set_points. exact Hi. }
  rewrite H3i, (rebuild _ Hok).
  assert (Hl3 : List.length act3 = List.length act).
  { unfold act3, act2, act1. rewrite !set_points_length. reflexivity. }
  apply action_eq.
  - rewrite keys_exchange. unfold act3, act2, act1.
    rewrite !keys_set_points. reflexivity.
  - intros n. rewrite points_exchange by assumption.
    rewrite points_set_points_eq by (rewrite Hl3; exact Hi).
    destruct (decide (n = i)) as [->|Hni].
    + rewrite decide_False by exact Hik. reflexivity.
    + unfold act3.
      rewrite points_set_points_eq
        by (unfold act2, act1; rewrite !set_points_length; exact Hk).
      destruct (decide (n = k)) as [->|Hnk]; [reflexivity|].
      unfold act2, act1. rewrite !points_set_points_ne by congruence.
      reflexivity.
Qed.

(** ** Swapping: the curves of different properties and axes are apart *)

Lemma pose_path_app (bone prop : string) :
  pose_path bone prop
  = ("pose.bones[" +:+ dquote +:+ bone +:+ dquote +:+ "].") +:+ prop.
Proof. unfold pose_path. rewrite !app_assoc'. reflexivity. Qed.

Lemma pose_path_prop_inj (b1 b2 p1 p2 : string) :
  p1 ∈ SwapKeyframesOperator.transform_properties ->
  p2 ∈ SwapKeyframesOperator.transform_properties ->
  pose_path b1 p1 = pose_path b2 p2 -> p1 = p2.
Proof.
  intros H1 H2 H. apply (f_equal tail4) in H.
  rewrite !pose_path_app in H.
  unfold SwapKeyframesOperator.transform_properties in *.
  repeat (apply elem_of_cons in H1 as [->|H1]);
    [| | | |inversion H1];
    (rewrite (tail4_app _ _) in H by (cbn; lia));
    (repeat (apply elem_of_cons in H2 as [->|H2]);
     [| | | |inversion H2];
     (rewrite (tail4_app _ _) in H by (cbn; lia));
     first [reflexivity | discriminate H]).
Qed.

Lemma combinations_property (pa : string * Z) :
  pa ∈ SwapKeyframesOperator.combinations ->
  pa.1 ∈ SwapKeyframesOperator.transform_properties.
Proof.
  intros H.
  change SwapKeyframesOperator.combinations with
    [("location", 0); ("location", 1); ("location", 2);
     ("rotation_euler", 0); ("rotation_euler", 1); ("rotation_euler", 2);
     ("rotation_quaternion", 0); ("rotation_quaternion", 1);
     ("rotation_quaternion", 2); ("rotation_quaternion", 3);
     ("scale", 0); ("scale", 1); ("scale", 2)] in H.
  unfold SwapKeyframesOperator.transform_properties.
  repeat (apply elem_of_cons in H as [->|H]);
    try (cbn [fst]; repeat (first [apply list_elem_of_here | right]); fail).
  inversion H.
Qed.

(** Two curves the swap looks for are the same curve only for the same
    property and axis and the same bone. *)
Lemma swap_keys_inj (b1 b2 : Bone) (pa1 pa2 : string * Z) :
  pa1 ∈ SwapKeyframesOperator.combinations ->
  pa2 ∈ SwapKeyframesOperator.combinations ->
  (pose_path b1 pa1.1, pa1.2) = (pose_path b2 pa2.1, pa2.2) ->
  pa1 = pa2 /\ b1 = b2.
Proof.
  intros H1 H2 H.
  pose proof (f_equal fst H) as Hp. pose proof (f_equal snd H) as Hi.
  cbn [fst snd] in Hp, Hi.
  assert (Hprop : pa1.1 = pa2.1).
  { eapply pose_path_prop_inj; [| |exact Hp];
      apply combinations_property; assumption. }
  split.
  - destruct pa1, pa2. cbn in *. congruence.
  - rewrite Hprop in Hp. apply pose_path_bone_inj in Hp. exact Hp.
Qed.

(** A position holds one curve: it is found under one key only. *)
Lemma find_fcurve_same_position (act : Action) (p1 p2 : string)
  (i1 i2 : Z) (n : nat) :
  Host.find_fcurve act p1 i1 = Some n ->
  Host.find_fcurve act p2 i2 = Some n -> (p1, i1) = (p2, i2).
Proof.
  intros H1 H2.
  apply find_fcurve_Some in H1 as (fc1 & Hl1 & <- & <- & _).
  apply find_fcurve_Some in H2 as (fc2 & Hl2 & <- & <- & _).
  congruence.
Qed.

Lemma channel_keys_points (a b : Action) (path : string) (index : Z) :
  keys a = keys b ->
  (forall n, Host.find_fcurve a path index = Some n ->
             Host.points a n = Host.points b n) ->
  channel a path index = channel b path index.
Proof.
  intros Hk Hp. unfold channel. rewrite <- (find_fcurve_keys a b) by exact Hk.
  destruct (Host.find_fcurve a path index) as [n|] eqn:E; [|reflexivity].
  cbn. rewrite (Hp n eq_refl). reflexivity.
Qed.

(** The body of the swap loops leaves the channels it does not look
    for. *)
Lemma swap_axis_channel_other (source_bone target_bone : Bone)
  (act : Action) (pa : string * Z) (path : string) (index : Z) :
  (path, index) <> (pose_path source_bone pa.1, pa.2) ->
  (path, index) <> (pose_path target_bone pa.1, pa.2) ->
  channel (SwapKeyframesOperator.swap_axis source_bone target_bone act pa)
    path index
  = channel act path index.
Proof.
  intros Hs Ht.
  destruct (swap_axis_frame source_bone target_bone act pa) as [Hk Hp].
  symmetry. apply channel_keys_points; [symmetry; exact Hk|].
  intros n Hn. symmetry. apply Hp.
  - intros H. apply Hs. eapply find_fcurve_same_position; eassumption.
  - intros H. apply Ht. eapply find_fcurve_same_position; eassumption.
Qed.

(** A property and axis is passed over when one of its curves is
    missing. *)
Lemma swap_axis_skip (source_bone target_bone : Bone) (act : Action)
  (pa : string * Z) :
  swap_positions source_bone target_bone act pa = None ->
  SwapKeyframesOperator.swap_axis source_bone target_bone act pa = act.
Proof.
  destruct pa as [prop axis].
  unfold swap_positions, SwapKeyframesOperator.swap_axis. cbn [fst snd].
  destruct (Host.find_fcurve act (pose_path source_bone prop) axis);
    [|reflexivity].
  destruct (Host.find_fcurve act (pose_path target_bone prop) axis);
    [discriminate | reflexivity].
Qed.

Lemma swap_positions_keys (source_bone target_bone : Bone) (a b : Action)
  (pa : string * Z) :
  keys a = keys b ->
  swap_positions source_bone target_bone a pa
  = swap_positions source_bone target_bone b pa.
Proof.
  intros H. unfold swap_positions.
  rewrite !(find_fcurve_keys a b) by exact H. reflexivity.
Qed.

(** ** Swapping: the operator *)

(** With two different bones selected and one of them active, the swap
    runs the body of its loops over the properties and axes, between the
    other bone and the active one. *)
Lemma swap_execute (pose : list Bone) (b0 b1 active : Bone) (sc : Scene)
  (action : Action) :
  b0 <> b1 -> active = b0 \/ active = b1 ->
  swap_source b0 b1 active <> active
  /\ ((swap_source b0 b1 active = b0 /\ active = b1)
      \/ (swap_source b0 b1 active = b1 /\ active = b0))
  /\ SwapKeyframesOperator.execute
       (swap_context pose b0 b1 active sc action)
     = mkResult FINISHED
         (Some (Some (foldl (SwapKeyframesOperator.swap_axis
                               (swap_source b0 b1 active) active)
                        action SwapKeyframesOperator.combinations)))
         [(INFO, Swapped (swap_source b0 b1 active) active)].
Proof.
  intros Hne [->| ->];
    unfold SwapKeyframesOperator.execute, swap_context, swap_source;
    cbn -[bool_decide SwapKeyframesOperator.combinations foldl].
  - rewrite (bool_decide_true (b0 = b0)) by reflexivity.
    rewrite (bool_decide_false (b1 = b0)) by congruence.
    cbn -[SwapKeyframesOperator.combinations foldl].
    repeat split; [congruence | tauto].
  - rewrite (bool_decide_true (b1 = b1)) by reflexivity.
    rewrite orb_true_r.
    cbn -[SwapKeyframesOperator.combinations foldl].
    repeat split; [congruence | tauto].
Qed.

Lemma channel_None (act : Action) (path : string) (index : Z) :
  channel act path index = None <-> Host.find_fcurve act path index = None.
Proof. unfold channel. apply fmap_None. Qed.

(** A property and axis with a curve missing keeps both its channels
    through the loops of the swap. *)
Lemma swap_fold_skipped (source_bone target_bone : Bone)
  (pa : string * Z) (pas : list (string * Z)) (act : Action) :
  pa ∈ SwapKeyframesOperator.combinations ->
  (forall pa', pa' ∈ pas -> pa' ∈ SwapKeyframesOperator.combinations) ->
  swap_positions source_bone target_bone act pa = None ->
  forall bone,
    channel (foldl (SwapKeyframesOperator.swap_axis source_bone target_bone)
               act pas) (pose_path bone pa.1) pa.2
    = channel act (pose_path bone pa.1) pa.2.
Proof.
  intros Hpa. revert act.
  induction pas as [|pa' pas IH]; intros act Hin Hnone bone; [reflexivity|].
  cbn [foldl].
  destruct (swap_axis_frame source_bone target_bone act pa') as [Hk _].
  rewrite IH.
  - destruct (decide (pa' = pa)) as [->|Hd].
    + rewrite swap_axis_skip by exact Hnone. reflexivity.
    + apply swap_axis_channel_other; intros E;
        apply swap_keys_inj in E as [E _]; try congruence; try assumption;
        apply Hin, list_elem_of_here.
  - intros pa'' H. apply Hin. now right.
  - rewrite (swap_positions_keys _ _ _ act) by exact Hk. exact Hnone.
Qed.

(** C8: with two different bones selected, one of them active, the swap
    leaves, for every property and axis it considers for which a curve of
    one of the two bones is missing, the channel of either bone as it was:
    the curve that exists keeps its points and the missing one stays
    missing. *)
Theorem swap_skips_missing (pose : list Bone) (b0 b1 active : Bone)
  (sc : Scene) (action : Action) (prop : string) (axis : Z)
  (Hbones : b0 <> b1)
  (Hactive : active = b0 \/ active = b1)
  (Hconsidered : (prop, axis) ∈ SwapKeyframesOperator.combinations)
  (Hmissing : channel action (pose_path b0 prop) axis = None
              \/ channel action (pose_path b1 prop) axis = None) :
  let r :=
    SwapKeyframesOperator.execute
      (swap_context pose b0 b1 active sc action) in
  outcome r = FINISHED
  /\ channel_after r (pose_path b0 prop) axis
     = channel action (pose_path b0 prop) axis
  /\ channel_after r (pose_path b1 prop) axis
     = channel action (pose_path b1 prop) axis.
Proof.
  intros r. subst r.
  destruct (swap_execute pose b0 b1 active sc action Hbones Hactive)
    as (Hst & Hwhich & ->).
  set (s := swap_source b0 b1 active) in *.
  unfold channel_after. cbn [outcome anim_after].
  assert (Hnone : swap_positions s active action (prop, axis) = None).
  { unfold swap_positions. cbn [fst snd].
    rewrite !channel_None in Hmissing.
    destruct Hwhich as [[-> ->]|[-> ->]];
      destruct (Host.find_fcurve action (pose_path b0 prop) axis),
        (Host.find_fcurve action (pose_path b1 prop) axis);
      try reflexivity; destruct Hmissing; discriminate. }
  split; [reflexivity|].
  split;
    apply (swap_fold_skipped s active (prop, axis) _ action Hconsidered
             (fun pa' H => H) Hnone).
Qed.

Lemma swap_skips_missing_example :
  "Arm" <> "Hand"
  /\ ("Hand" = "Arm" \/ "Hand" = "Hand")
  /\ ("scale", 1) ∈ SwapKeyframesOperator.combinations
  /\ (channel one_scale_action (pose_path "Arm" "scale") 1 = None
      \/ channel one_scale_action (pose_path "Hand" "scale") 1 = None)
  /\ (let r :=
        SwapKeyframesOperator.execute
          (swap_context ["Arm"; "Hand"] "Arm" "Hand" "Hand" default_scene
             one_scale_action) in
      outcome r = FINISHED
      /\ channel_after r (pose_path "Arm" "scale") 1
         = channel one_scale_action (pose_path "Arm" "scale") 1
      /\ channel_after r (pose_path "Hand" "scale") 1
         = channel one_scale_action (pose_path "Hand" "scale") 1).
Proof.
  assert (H1 : "Arm" <> "Hand") by discriminate.
  assert (H2 : "Hand" = "Arm" \/ "Hand" = "Hand") by (right; reflexivity).
  assert (H3 : ("scale", 1) ∈ SwapKeyframesOperator.combinations)
    by (vm_compute; repeat first [apply list_elem_of_here | right]).
  assert (H4 : channel one_scale_action (pose_path "Arm" "scale") 1 = None
               \/ channel one_scale_action (pose_path "Hand" "scale") 1
                  = None) by (right; reflexivity).
  split; [exact H1|]. split; [exact H2|]. split; [exact H3|].
  split; [exact H4|].
  apply (swap_skips_missing ["Arm"; "Hand"] "Arm" "Hand" "Hand"
           default_scene one_scale_action "scale" 1 H1 H2 H3 H4).
Defined.

(** ** Swapping twice *)

Lemma all_ordered_points (act : Action) :
  all_ordered act = true
  <-> forall n, strictly_ordered (Host.points act n) = true.
Proof.
  unfold all_ordered. rewrite forallb_forall. split.
  - intros H n. unfold Host.points.
    destruct (act !! n) as [fc|] eqn:E; [|reflexivity].
    apply H. apply list_elem_of_In. apply list_elem_of_lookup. eauto.
  - intros H fc Hfc. apply list_elem_of_In in Hfc.
    apply list_elem_of_lookup in Hfc as [n Hn].
    specialize (H n). unfold Host.points in H. rewrite Hn in H. exact H.
Qed.

Lemma swap_positions_lt (source_bone target_bone : Bone) (act : Action)
  (pa : string * Z) (i k : nat) :
  swap_positions source_bone target_bone act pa = Some (i, k) ->
  Host.find_fcurve act (pose_path source_bone pa.1) pa.2 = Some i
  /\ Host.find_fcurve act (pose_path target_bone pa.1) pa.2 = Some k
  /\ (i < List.length act)%nat /\ (k < List.length act)%nat.
Proof.
  unfold swap_positions.
  destruct (Host.find_fcurve act (pose_path source_bone pa.1) pa.2)
    as [i'|] eqn:Ei; [|discriminate].
  destruct (Host.find_fcurve act (pose_path target_bone pa.1) pa.2)
    as [k'|] eqn:Ek; [|discriminate].
  intros H. injection H as -> ->.
  repeat split; try reflexivity; eapply find_fcurve_lt; eassumption.
Qed.

Lemma swap_positions_apart (source_bone target_bone : Bone) (act : Action)
  (pa : string * Z) (i k : nat) :
  source_bone <> target_bone ->
  swap_positions source_bone target_bone act pa = Some (i, k) -> i <> k.
Proof.
  intros Hne H ->. apply swap_positions_lt in H as (Hi & Hk & _).
  pose proof (find_fcurve_same_position _ _ _ _ _ _ Hi Hk) as E.
  apply (f_equal fst) in E. cbn [fst] in E.
  apply pose_path_bone_inj in E. contradiction.
Qed.

(** On an action of strictly ordered curves the body of the swap loops
    exchanges the two curves it finds, or does nothing. *)
Lemma swap_axis_ordered (source_bone target_bone : Bone) (act : Action)
  (pa : string * Z) :
  source_bone <> target_bone -> all_ordered act = true ->
  SwapKeyframesOperator.swap_axis source_bone target_bone act pa
  = match swap_positions source_bone target_bone act pa with
    | Some (i, k) => exchange i k act
    | None => act
    end.
Proof.
  intros Hne Ho.
  destruct (swap_positions source_bone target_bone act pa) as [[i k]|]
    eqn:E.
  - apply swap_axis_exchange; [exact E | | |].
    + eapply swap_positions_apart; eassumption.
    + apply all_ordered_points. exact Ho.
    + apply all_ordered_points. exact Ho.
  - apply swap_axis_skip. exact E.
Qed.

Lemma all_ordered_exchange (i k : nat) (act : Action) :
  (i < List.length act)%nat -> (k < List.length act)%nat -> i <> k ->
  all_ordered act = true -> all_ordered (exchange i k act) = true.
Proof.
  intros Hi Hk Hik Ho. apply all_ordered_points. intros n.
  rewrite points_exchange by assumption.
  rewrite all_ordered_points in Ho.
  repeat case_decide; apply Ho.
Qed.

Lemma swap_axis_all_ordered (source_bone target_bone : Bone) (act : Action)
  (pa : string * Z) :
  source_bone <> target_bone -> all_ordered act = true ->
  all_ordered
    (SwapKeyframesOperator.swap_axis source_bone target_bone act pa) = true.
Proof.
  intros Hne Ho. rewrite swap_axis_ordered by assumption.
  destruct (swap_positions source_bone target_bone act pa) as [[i k]|]
    eqn:E; [|exact Ho].
  pose proof (swap_positions_apart _ _ _ _ _ _ Hne E) as Hik.
  apply swap_positions_lt in E as (_ & _ & Hi & Hk).
  apply all_ordered_exchange; assumption.
Qed.



Lemma swap_axis_keys (source_bone target_bone : Bone) (act : Action)
  (pa : string * Z) :
  keys (SwapKeyframesOperator.swap_axis source_bone target_bone act pa)
  = keys act.
Proof. apply swap_axis_frame. Qed.



Lemma swap_fold_all_ordered (source_bone target_bone : Bone)
  (pas : list (string * Z)) (act : Action) :
  source_bone <> target_bone -> all_ordered act = true ->
  all_ordered
    (foldl (SwapKeyframesOperator.swap_axis source_bone target_bone) act
       pas) = true.
Proof.
  intros Hne. revert act. induction pas as [|pa pas IH]; intros act Ho;
    [exact Ho|].
  cbn [foldl]. apply IH. apply swap_axis_all_ordered; assumption.
Qed.






(** The first swap of the example does exchange the location X curves. *)
Lemma swap_once_example :
  channel_after
    (SwapKeyframesOperator.execute
       (swap_context ["Arm"; "Hand"] "Arm" "Hand" "Hand" default_scene
          two_bone_action))
    (pose_path "Arm" "location") 0
  = channel two_bone_action (pose_path "Hand" "location") 0.
Proof. reflexivity. Qed.

(** ** Inserting the same points again *)

Lemma Qcompare_eq_l (t t' x : Q) : (t' == t)%Q -> Qcompare t' x = Qcompare t x.
Proof. intros H. rewrite H. reflexivity. Qed.

Lemma set_value_same (p : Keyframe) : Host.set_value p (value p) = p.
Proof. destruct p as [[t v] hl hr ip ea lt rt]. reflexivity. Qed.

Lemma set_value_set_value (p : Keyframe) (v v' : Q) :
  Host.set_value (Host.set_value p v) v' = Host.set_value p v'.
Proof. reflexivity. Qed.

(** After an insertion at a time, that time holds the value inserted. *)
Lemma value_at_ins (t t' v : Q) (pts : list Keyframe) :
  (t' == t)%Q -> value_at t (ins t' v pts) = Some v.
Proof.
  intros Ht. induction pts as [|p pts IH].
  - rewrite ins_nil. cbn. rewrite <- (Qcompare_eq_l t t' t') by exact Ht.
    rewrite Qcompare_refl. reflexivity.
  - rewrite ins_cons. rewrite (Qcompare_eq_l t t') by exact Ht.
    destruct (Qcompare t (time p)) eqn:E.
    + cbn [value_at]. change (time (Host.set_value p v)) with (time p).
      rewrite E. reflexivity.
    + cbn [value_at]. change (time (Host.new_keyframe t' v)) with t'.
      rewrite <- (Qcompare_eq_l t t' t') by exact Ht.
      rewrite Qcompare_refl. reflexivity.
    + cbn [value_at]. rewrite E. exact IH.
Qed.

(** An insertion at another time leaves the value a time holds. *)
Lemma value_at_ins_other (t t' v' w : Q) (pts : list Keyframe) :
  value_at t pts = Some w -> ~ (t' == t)%Q ->
  value_at t (ins t' v' pts) = Some w.
Proof.
  intros Hw Hne. induction pts as [|p pts IH]; [discriminate|].
  rewrite ins_cons. cbn [value_at] in Hw.
  destruct (Qcompare t (time p)) eqn:E; try discriminate.
  - (* the point of [t] is at the head *)
    pose proof (proj2 (Qeq_alt _ _) E) as Heq.
    destruct (Qcompare t' (time p)) eqn:E'.
    + exfalso. apply Hne. apply Qeq_alt in E'. rewrite E', Heq. reflexivity.
    + cbn [value_at]. change (time (Host.new_keyframe t' v')) with t'.
      assert (Hgt : Qcompare t t' = Gt).
      { apply Qgt_alt. apply Qlt_alt in E'. rewrite Heq. exact E'. }
      rewrite Hgt, E. exact Hw.
    + cbn [value_at]. rewrite E. exact Hw.
  - (* the point of [t] is further on *)
    destruct (Qcompare t' (time p)) eqn:E'.
    + cbn [value_at]. change (time (Host.set_value p v')) with (time p).
      rewrite E. exact Hw.
    + cbn [value_at]. change (time (Host.new_keyframe t' v')) with t'.
      assert (Hgt : Qcompare t t' = Gt).
      { apply Qgt_alt. apply Qlt_alt in E'.
        pose proof (proj2 (Qgt_alt _ _) E) as Hp.
        eapply Qlt_trans; eassumption. }
      rewrite Hgt, E. exact Hw.
    + cbn [value_at]. rewrite E. apply IH. exact Hw.
Qed.

(** Inserting the value a time holds changes nothing. *)
Lemma ins_same (t v : Q) (pts : list Keyframe) :
  value_at t pts = Some v -> ins t v pts = pts.
Proof.
  induction pts as [|p pts IH]; [discriminate|].
  cbn [value_at]. rewrite ins_cons.
  destruct (Qcompare t (time p)); try discriminate.
  - intros H. injection H as <-. rewrite set_value_same. reflexivity.
  - intros H. rewrite IH by exact H. reflexivity.
Qed.

(** A later insertion at the same time covers an earlier one. *)
Lemma ins_ins_eq (t t' v v' : Q) (pts : list Keyframe) :
  is_Some (value_at t pts) -> (t' == t)%Q ->
  ins t' v' (ins t v pts) = ins t' v' pts.
Proof.
  intros Hs Ht. induction pts as [|p pts IH].
  - destruct Hs as [w Hw]. discriminate.
  - cbn [value_at] in Hs. rewrite !ins_cons.
    rewrite (Qcompare_eq_l t t') by exact Ht.
    destruct (Qcompare t (time p)) eqn:E.
    + rewrite ins_cons. change (time (Host.set_value p v)) with (time p).
      rewrite (Qcompare_eq_l t t') by exact Ht. rewrite E. reflexivity.
    + destruct Hs as [w Hw]. discriminate.
    + rewrite ins_cons, (Qcompare_eq_l t t') by exact Ht. rewrite E.
      rewrite IH by exact Hs. reflexivity.
Qed.

(** Insertions at different times can change places, when the first is
    the replacement of a value. *)
Lemma ins_ins_comm (t t' v v' : Q) (pts : list Keyframe) :
  is_Some (value_at t pts) -> ~ (t' == t)%Q ->
  ins t' v' (ins t v pts) = ins t v (ins t' v' pts).
Proof.
  intros Hs Hne. induction pts as [|p pts IH].
  - destruct Hs as [w Hw]. discriminate.
  - cbn [value_at] in Hs. rewrite (ins_cons t), (ins_cons t').
    destruct (Qcompare t (time p)) eqn:E.
    + (* [t] replaces the head *)
      rewrite ins_cons. change (time (Host.set_value p v)) with (time p).
      destruct (Qcompare t' (time p)) eqn:E'.
      * exfalso. apply Hne.
        pose proof (proj2 (Qeq_alt _ _) E) as Heq.
        pose proof (proj2 (Qeq_alt _ _) E') as Heq'.
        rewrite Heq, Heq'. reflexivity.
      * rewrite ins_cons. change (time (Host.new_keyframe t' v')) with t'.
        assert (Hgt : Qcompare t t' = Gt).
        { apply Qgt_alt. apply Qlt_alt in E'.
          pose proof (proj2 (Qeq_alt _ _) E) as Heq.
          rewrite Heq. exact E'. }
        rewrite Hgt, ins_cons, E. reflexivity.
      * rewrite ins_cons, E. reflexivity.
    + destruct Hs as [w Hw]. discriminate.
    + (* [t] replaces a point further on *)
      rewrite (ins_cons t' v' p).
      destruct (Qcompare t' (time p)) eqn:E'.
      * rewrite ins_cons. change (time (Host.set_value p v')) with (time p).
        rewrite E. reflexivity.
      * rewrite ins_cons. change (time (Host.new_keyframe t' v')) with t'.
        assert (Hgt : Qcompare t t' = Gt).
        { apply Qgt_alt. apply Qlt_alt in E'.
          pose proof (proj2 (Qgt_alt _ _) E) as Hp.
          eapply Qlt_trans; eassumption. }
        rewrite Hgt, ins_cons, E. reflexivity.
      * rewrite ins_cons, E, IH by exact Hs. reflexivity.
Qed.

Lemma value_at_insert_all (t : Q) (src : list (Q * Q)) (pts : list Keyframe) :
  is_Some (value_at t pts) -> is_Some (value_at t (insert_all src pts)).
Proof.
  revert pts. induction src as [|[t' v'] src IH]; intros pts Hs; [exact Hs|].
  rewrite insert_all_cons. apply IH. cbn [fst snd].
  destruct (Qeq_dec t' t) as [He|Hne].
  - rewrite (value_at_ins t t' v' pts He). eauto.
  - destruct Hs as [w Hw].
    rewrite (value_at_ins_other t t' v' w pts Hw Hne). eauto.
Qed.

Lemma value_at_insert_all_other (t w : Q) (src : list (Q * Q))
  (pts : list Keyframe) :
  value_at t pts = Some w ->
  (forall fv, fv ∈ src -> ~ (fst fv == t)%Q) ->
  value_at t (insert_all src pts) = Some w.
Proof.
  revert pts. induction src as [|[t' v'] src IH]; intros pts Hw Hno;
    [exact Hw|].
  rewrite insert_all_cons. apply IH.
  - apply value_at_ins_other; [exact Hw|].
    apply (Hno (t', v')), list_elem_of_here.
  - intros fv Hfv. apply Hno. now right.
Qed.

(** An insertion is covered by the insertions after it when one of them
    is at the same time. *)
Lemma insert_all_covers (t v : Q) (src : list (Q * Q))
  (pts : list Keyframe) :
  is_Some (value_at t pts) ->
  (exists fv, fv ∈ src /\ (fst fv == t)%Q) ->
  insert_all src (ins t v pts) = insert_all src pts.
Proof.
  revert pts. induction src as [|[t' v'] src IH]; intros pts Hs Hex.
  - destruct Hex as (fv & Hfv & _). inversion Hfv.
  - rewrite !insert_all_cons. cbn [fst snd].
    destruct (Qeq_dec t' t) as [He|Hne].
    + rewrite ins_ins_eq by assumption. reflexivity.
    + rewrite ins_ins_comm by assumption. apply IH.
      * destruct Hs as [w Hw].
        rewrite (value_at_ins_other t t' v' w pts Hw Hne). eauto.
      * destruct Hex as (fv & Hfv & Heq).
        apply elem_of_cons in Hfv as [->|Hfv]; [contradiction|].
        exists fv. split; assumption.
Qed.

Lemma covered_dec (t : Q) (src : list (Q * Q)) :
  (exists fv, fv ∈ src /\ (fst fv == t)%Q)
  \/ (forall fv, fv ∈ src -> ~ (fst fv == t)%Q).
Proof.
  induction src as [|fv src IH].
  - right. intros fv H. inversion H.
  - destruct (Qeq_dec (fst fv) t) as [He|Hne].
    + left. exists fv. split; [apply list_elem_of_here | exact He].
    + destruct IH as [(fv' & H1 & H2)|IH].
      * left. exists fv'. split; [now right | exact H2].
      * right. intros fv' H. apply elem_of_cons in H as [->|H]; auto.
Qed.

(** Inserting the same points a second time changes nothing. *)
Lemma insert_all_twice (src : list (Q * Q)) (pts : list Keyframe) :
  insert_all src (insert_all src pts) = insert_all src pts.
Proof.
  revert pts. induction src as [|[t v] src IH]; intros pts; [reflexivity|].
  rewrite !insert_all_cons. cbn [fst snd].
  set (pts1 := ins t v pts).
  assert (H1 : value_at t pts1 = Some v)
    by (apply value_at_ins; reflexivity).
  destruct (covered_dec t src) as [Hex|Hno].
  - rewrite insert_all_covers; [apply IH | | exact Hex].
    apply value_at_insert_all. rewrite H1. eauto.
  - rewrite ins_same; [apply IH|].
    apply value_at_insert_all_other; assumption.
Qed.

Lemma insert_all_app (src src' : list (Q * Q)) (pts : list Keyframe) :
  insert_all (src ++ src') pts = insert_all src' (insert_all src pts).
Proof. unfold insert_all. apply foldl_app. Qed.

(** ** Changes of curves, one after the other *)

Lemma keys_modify (a : Action) (p : string) (j : Z)
  (f : list Keyframe -> list Keyframe) :
  keys (modify a p j f)
  = keys a ++ match Host.find_fcurve a p j with
              | Some _ => []
              | None => [(p, j)]
              end.
Proof.
  unfold modify. destruct (Host.find_fcurve a p j).
  - rewrite keys_set_points, app_nil_r. reflexivity.
  - unfold keys. rewrite fmap_app. reflexivity.
Qed.

Lemma keys_run (changes : list Change) (a : Action) :
  exists ext, keys (run changes a) = keys a ++ ext.
Proof.
  revert a. induction changes as [|ch changes IH]; intros a.
  - exists []. rewrite app_nil_r. reflexivity.
  - destruct (IH (modify a ch.1.1 ch.1.2 ch.2)) as [ext Hext].
    eexists. unfold run in *. cbn [foldl]. rewrite Hext, keys_modify.
    rewrite <- app_assoc. reflexivity.
Qed.

Lemma length_keys_eq (a : Action) : List.length (keys a) = List.length a.
Proof. unfold keys. apply length_fmap. Qed.

(** Looking for a curve in an action whose keys extend those of
    another. *)
Lemma find_fcurve_extension (a b : Action) (ext : list (string * Z))
  (p : string) (j : Z) (n : nat) :
  keys b = keys a ++ ext ->
  Host.find_fcurve b p j = Some n <->
  Host.find_fcurve a p j = Some n
  \/ ((List.length a <= n)%nat /\ Host.find_fcurve a p j = None
      /\ Host.find_fcurve b p j = Some n).
Proof.
  intros Hk. split.
  - intros Hb. destruct (Host.find_fcurve a p j) as [m|] eqn:Ea.
    + left. f_equal.
      rewrite find_fcurve_by_keys in Hb, Ea. rewrite Hk in Hb.
      apply fmap_Some in Ea as ([m' x] & Ea & ->).
      apply fmap_Some in Hb as ([n' y] & Hb & ->).
      apply list_find_app_Some in Hb as [Hb|(_ & Hb & _)]; congruence.
    + right. split; [|split; [reflexivity | exact Hb]].
      rewrite find_fcurve_by_keys in Hb, Ea. rewrite Hk in Hb.
      apply fmap_Some in Hb as ([n' y] & Hb & ->).
      apply list_find_app_Some in Hb as [Hb|(Hl & _ & _)].
      * rewrite Hb in Ea. discriminate.
      * rewrite length_keys_eq in Hl. exact Hl.
  - intros [Ha|(_ & _ & Hb)]; [|exact Hb].
    rewrite find_fcurve_by_keys in *. rewrite Hk.
    apply fmap_Some in Ha as ([m x] & Ha & ->).
    apply fmap_Some. exists (m, x). split; [|reflexivity].
    apply list_find_app_Some. left. exact Ha.
Qed.

Lemma points_modify (a : Action) (p : string) (j : Z)
  (f : list Keyframe -> list Keyframe) (n : nat) :
  Host.points (modify a p j f) n
  = match Host.find_fcurve a p j with
    | Some k => if decide (n = k) then f (Host.points a k)
                else Host.points a n
    | None => if decide (n = List.length a) then f []
              else Host.points a n
    end.
Proof.
  unfold modify. destruct (Host.find_fcurve a p j) as [k|] eqn:E.
  - pose proof (find_fcurve_lt _ _ _ _ E) as Hk.
    rewrite points_set_points_eq by exact Hk.
    destruct (decide (n = k)) as [->|]; reflexivity.
  - destruct (decide (n = List.length a)) as [->|Hn].
    + apply points_app_new.
    + destruct (decide (n < List.length a)%nat) as [Hlt|Hge].
      * apply points_app_old. exact Hlt.
      * rewrite !points_ge; [reflexivity | lia |].
        rewrite length_app. cbn. lia.
Qed.

Lemma length_modify (a : Action) (p : string) (j : Z)
  (f : list Keyframe -> list Keyframe) :
  List.length (modify a p j f)
  = (List.length a + match Host.find_fcurve a p j with
                     | Some _ => 0
                     | None => 1
                     end)%nat.
Proof.
  unfold modify. destruct (Host.find_fcurve a p j).
  - rewrite set_points_length. lia.
  - rewrite length_app. reflexivity.
Qed.

Lemma find_modify_same (a : Action) (p : string) (j : Z)
  (f : list Keyframe -> list Keyframe) :
  is_Some (Host.find_fcurve (modify a p j f) p j).
Proof.
  unfold modify. destruct (Host.find_fcurve a p j) as [k|] eqn:E.
  - rewrite find_fcurve_set_points, E. eauto.
  - rewrite (find_fcurve_app_new _ _ _ _ E). eauto.
Qed.

Lemma run_cons (ch : Change) (changes : list Change) (a : Action) :
  run (ch :: changes) a = run changes (modify a ch.1.1 ch.1.2 ch.2).
Proof. reflexivity. Qed.

Lemma along_cons (k : string * Z) (ch : Change) (changes : list Change)
  (c : list Keyframe) :
  along k (ch :: changes) c
  = along k changes (if decide (ch.1 = k) then ch.2 c else c).
Proof. reflexivity. Qed.

Lemma find_run_old (changes : list Change) (a : Action) (p : string)
  (j : Z) (n : nat) :
  Host.find_fcurve a p j = Some n ->
  Host.find_fcurve (run changes a) p j = Some n.
Proof.
  intros H. destruct (keys_run changes a) as [ext Hext].
  apply (find_fcurve_extension a _ ext p j n Hext). left. exact H.
Qed.

Lemma find_modify_old (a : Action) (q : string) (i : Z)
  (f : list Keyframe -> list Keyframe) (p : string) (j : Z) (n : nat) :
  Host.find_fcurve a p j = Some n ->
  Host.find_fcurve (modify a q i f) p j = Some n.
Proof. apply (find_run_old [(q, i, f)] a). Qed.

(** The points of a curve found after the changes: those the changes at
    its key make of the points it had, or of no points when it is new. *)
Lemma run_points (changes : list Change) (a : Action) (p : string) (j : Z)
  (n : nat) :
  Host.find_fcurve (run changes a) p j = Some n ->
  Host.points (run changes a) n
  = along (p, j) changes
      (if decide (n < List.length a)%nat then Host.points a n else []).
Proof.
  revert a. induction changes as [|[[q i] f] changes IH]; intros a Hfin.
  - cbn in *. rewrite decide_True; [reflexivity|].
    eapply find_fcurve_lt. exact Hfin.
  - rewrite run_cons in *. cbn [fst snd] in *.
    rewrite (IH _ Hfin), along_cons. cbn [fst snd]. f_equal.
    set (b := modify a q i f) in *.
    destruct (keys_run changes b) as [ext Hext].
    pose proof (proj1 (find_fcurve_extension b _ ext p j n Hext) Hfin)
      as [Hb|(Hge & Hnone & _)].
    + (* the curve is in [b] already *)
      pose proof (find_fcurve_lt _ _ _ _ Hb) as Hlt.
      destruct (decide (n < List.length b)%nat) as [_|?]; [|lia].
      unfold b in *. rewrite points_modify. rewrite length_modify in Hlt.
      unfold modify in Hb.
      destruct (Host.find_fcurve a q i) as [k|] eqn:Ea; cbn [Nat.add] in Hlt.
      * destruct (decide (n < List.length a)%nat) as [_|?]; [|lia].
        rewrite find_fcurve_set_points in Hb.
        destruct (decide (n = k)) as [->|Hnk];
          destruct (decide ((q, i) = (p, j))) as [E|HE]; try reflexivity.
        -- exfalso. apply HE.
           eapply find_fcurve_same_position; eassumption.
        -- exfalso. injection E as -> ->. congruence.
      * pose proof (find_fcurve_app_new a q i (f []) Ea) as Hnew.
        destruct (decide (n = List.length a)) as [->|Hn];
          destruct (decide ((q, i) = (p, j))) as [E|HE];
          destruct (decide (_ < List.length a)%nat) as [?|?];
          try reflexivity; try lia.
        -- exfalso. apply HE.
           eapply find_fcurve_same_position; eassumption.
        -- exfalso. injection E as -> ->. congruence.
    + (* the curve is added by the later changes *)
      destruct (decide (n < List.length b)%nat) as [?|_]; [lia|].
      unfold b in *. rewrite length_modify in Hge.
      destruct (decide (n < List.length a)%nat) as [?|_];
        [destruct (Host.find_fcurve a q i); cbn in Hge; lia|].
      destruct (decide ((q, i) = (p, j))) as [E|HE]; [|reflexivity].
      exfalso. injection E as -> ->.
      destruct (find_modify_same a p j f) as [m Hm]. congruence.
Qed.

(** The points of a position no curve is found at are as they were. *)
Lemma run_points_other (changes : list Change) (a : Action) (n : nat) :
  (forall p j, Host.find_fcurve (run changes a) p j <> Some n) ->
  Host.points (run changes a) n = Host.points a n.
Proof.
  revert a. induction changes as [|[[q i] f] changes IH]; intros a Hno;
    [reflexivity|].
  rewrite run_cons in *. cbn [fst snd] in *. rewrite (IH _ Hno).
  rewrite points_modify.
  destruct (Host.find_fcurve a q i) as [k|] eqn:Ea.
  - rewrite decide_False; [reflexivity|]. intros ->.
    apply (Hno q i). apply find_run_old, find_modify_old. exact Ea.
  - rewrite decide_False; [reflexivity|]. intros ->.
    apply (Hno q i). apply find_run_old. unfold modify. rewrite Ea.
    apply find_fcurve_app_new. exact Ea.
Qed.

Lemma find_run_present (changes : list Change) (a : Action) (ch : Change) :
  ch ∈ changes -> is_Some (Host.find_fcurve (run changes a) ch.1.1 ch.1.2).
Proof.
  revert a. induction changes as [|ch' changes IH]; intros a Hin;
    [inversion Hin|].
  rewrite run_cons. apply elem_of_cons in Hin as [->|Hin]; [|apply IH, Hin].
  destruct (find_modify_same a ch'.1.1 ch'.1.2 ch'.2) as [m Hm].
  exists m. apply find_run_old. exact Hm.
Qed.

Lemma keys_run_present (changes : list Change) (a : Action) :
  (forall ch, ch ∈ changes -> is_Some (Host.find_fcurve a ch.1.1 ch.1.2)) ->
  keys (run changes a) = keys a.
Proof.
  revert a. induction changes as [|ch changes IH]; intros a Hall;
    [reflexivity|].
  rewrite run_cons.
  assert (Hk : keys (modify a ch.1.1 ch.1.2 ch.2) = keys a).
  { rewrite keys_modify.
    destruct (Hall ch (list_elem_of_here _ _)) as [m ->].
    apply app_nil_r. }
  rewrite IH; [exact Hk|].
  intros ch' Hin. destruct (Hall ch' (list_elem_of_further _ _ _ Hin))
    as [m Hm].
  exists m. apply find_modify_old. exact Hm.
Qed.

(** Changes that, key by key, make nothing new of what they have made,
    leave the action they have made when they are made again. *)
Lemma run_twice (changes : list Change) (a : Action) :
  (forall k c, along k changes (along k changes c) = along k changes c) ->
  run changes (run changes a) = run changes a.
Proof.
  intros Hidem. set (a1 := run changes a).
  assert (Hk : keys (run changes a1) = keys a1).
  { apply keys_run_present. intros ch Hin. apply find_run_present. exact Hin. }
  assert (Hfind : forall p j,
             Host.find_fcurve (run changes a1) p j
             = Host.find_fcurve a1 p j)
    by (intros p j; apply find_fcurve_keys; exact Hk).
  apply action_eq; [exact Hk|]. intros n.
  destruct (a1 !! n) as [fc|] eqn:En.
  - destruct (decide (Host.find_fcurve a1 (data_path fc) (array_index fc)
                      = Some n)) as [Hf|Hf].
    + rewrite (run_points changes a1 (data_path fc) (array_index fc) n)
        by (rewrite Hfind; exact Hf).
      rewrite decide_True by (eapply lookup_lt_Some; exact En).
      unfold a1.
      rewrite (run_points changes a (data_path fc) (array_index fc) n Hf).
      apply Hidem.
    + apply run_points_other. intros p j. rewrite Hfind. intros Hpj.
      apply Hf.
      assert (E : (p, j) = (data_path fc, array_index fc)).
      { apply find_fcurve_Some in Hpj as (fc' & Hl & <- & <- & _).
        congruence. }
      injection E as <- <-. exact Hpj.
  - apply lookup_ge_None_1 in En.
    rewrite !points_ge; [reflexivity | exact En |].
    rewrite <- (length_keys _ _ Hk) in En. exact En.
Qed.

(** What a sequence of transfers makes of the points of a curve is an
    insertion of points, after dropping the points or not. *)
Lemma along_shape (source_bone target_bone : Bone)
  (source_axes : list string) (replace_all : bool) (k : string * Z)
  (act : list FCurve) :
  exists src drop, forall c,
    along k (program source_bone target_bone source_axes replace_all act) c
    = insert_all src (if drop : bool then [] else c).
Proof.
  unfold program. induction act as [|fc act IH].
  - exists [], false. reflexivity.
  - destruct IH as (src & drop & IH). cbn [omap list_omap].
    destruct (change_of source_bone target_bone source_axes replace_all fc)
      as [ch|] eqn:E; [|exists src, drop; exact IH].
    unfold change_of in E. apply fmap_Some in E as ([[p j] s] & _ & ->).
    cbn [fst snd].
    destruct (decide ((p, j) = k)) as [Hk|Hk].
    + destruct drop.
      * exists src, true. intros c. rewrite along_cons, IH. reflexivity.
      * exists (scaled s (keyframe_points fc) ++ src), replace_all.
        intros c. rewrite along_cons, IH. cbn [fst snd].
        rewrite decide_True by exact Hk.
        unfold transfer. rewrite insert_all_app. reflexivity.
    + exists src, drop. intros c. rewrite along_cons. cbn [fst snd].
      rewrite decide_False by exact Hk. apply IH.
Qed.

Lemma along_program_twice (source_bone target_bone : Bone)
  (source_axes : list string) (replace_all : bool) (k : string * Z)
  (act : list FCurve) (c : list Keyframe) :
  along k (program source_bone target_bone source_axes replace_all act)
    (along k (program source_bone target_bone source_axes replace_all act)
       c)
  = along k (program source_bone target_bone source_axes replace_all act) c.
Proof.
  destruct (along_shape source_bone target_bone source_axes replace_all k
              act) as (src & drop & H).
  rewrite !H. destruct drop; [reflexivity|]. apply insert_all_twice.
Qed.

(** ** The copy loop as a sequence of changes *)

Lemma source_target_Some (source_bone target_bone : Bone)
  (source_axes : list string) (fc : FCurve) (p : string) (j scale : Z) :
  source_target source_bone target_bone source_axes fc = Some (p, j, scale) ->
  PyStr.startswith (data_path fc) (pose_path source_bone "location") = true
  /\ p = pose_path target_bone (PyStr.last_segment (data_path fc)).
Proof.
  unfold source_target.
  destruct (PyStr.startswith (data_path fc)
              (pose_path source_bone "location")); [|discriminate].
  destruct ((array_index fc <? 0)
            || (array_index fc >=? Z.of_nat (List.length source_axes)));
    [discriminate|].
  destruct (source_axes !! Z.to_nat (array_index fc)) as [label|];
    [|discriminate].
  destruct (axis_mapping label) as [[j' s']|]; [|discriminate].
  intros H. injection H as <- _ _. split; reflexivity.
Qed.

Lemma source_target_key (source_bone target_bone : Bone)
  (source_axes : list string) (fc fc' : FCurve) :
  data_path fc = data_path fc' -> array_index fc = array_index fc' ->
  source_target source_bone target_bone source_axes fc
  = source_target source_bone target_bone source_axes fc'.
Proof. intros Hp Hi. unfold source_target. rewrite Hp, Hi. reflexivity. Qed.

(** A curve of the target bone is not a source. *)
Lemma source_target_of_target (source_bone target_bone : Bone)
  (source_axes : list string) (fc : FCurve) (prop : string) :
  separate source_bone target_bone ->
  data_path fc = pose_path target_bone prop ->
  source_target source_bone target_bone source_axes fc = None.
Proof.
  intros Hsep Hp. unfold source_target. rewrite Hp, (Hsep prop). reflexivity.
Qed.

Lemma copy_fcurve_step (source_bone target_bone : Bone)
  (source_axes : list string) (replace_all : bool) (i : nat)
  (st : LoopState) :
  separate source_bone target_bone ->
  fst (copy_fcurve source_bone target_bone source_axes replace_all i st)
  = copy_step source_bone target_bone source_axes replace_all (fst st) i.
Proof.
  intros Hsep. destruct st as [act log]. cbn [fst]. unfold copy_step.
  destruct (act !! i) as [fc|] eqn:E.
  - rewrite (copy_fcurve_action _ _ _ _ _ _ _ fc E).
    + unfold change_of.
      destruct (source_target source_bone target_bone source_axes fc)
        as [[[p j] s]|]; reflexivity.
    + intros p j s Hst [Hp _].
      apply source_target_Some in Hst as [Hs ->].
      rewrite Hp, Hsep in Hs. discriminate.
  - unfold copy_fcurve. cbn [fst]. rewrite E. reflexivity.
Qed.

Lemma copy_fold_steps (source_bone target_bone : Bone)
  (source_axes : list string) (replace_all : bool) (l : list nat)
  (st : LoopState) :
  separate source_bone target_bone ->
  fst (foldl (fun s i => copy_fcurve source_bone target_bone source_axes
                           replace_all i s) st l)
  = foldl (copy_step source_bone target_bone source_axes replace_all)
      (fst st) l.
Proof.
  intros Hsep. revert st. induction l as [|i l IH]; intros st; [reflexivity|].
  cbn [foldl]. rewrite IH, copy_fcurve_step by exact Hsep. reflexivity.
Qed.

Lemma extends_refl (source_bone target_bone : Bone)
  (source_axes : list string) (a : Action) :
  extends source_bone target_bone source_axes a a.
Proof.
  split.
  - intros i fc H. exists fc. repeat split; auto.
  - intros i fc H Hge. apply lookup_lt_Some in H. lia.
Qed.

Lemma lookup_modify (a : Action) (p : string) (j : Z)
  (f : list Keyframe -> list Keyframe) (i : nat) (fc : FCurve) :
  a !! i = Some fc ->
  exists fc', modify a p j f !! i = Some fc'
    /\ data_path fc' = data_path fc /\ array_index fc' = array_index fc
    /\ (~ (data_path fc = p /\ array_index fc = j) ->
        keyframe_points fc' = keyframe_points fc).
Proof.
  intros H. unfold modify.
  destruct (Host.find_fcurve a p j) as [k|] eqn:E.
  - destruct (decide (k = i)) as [->|Hne].
    + rewrite (lookup_set_points _ _ _ _ H). eexists. split; [reflexivity|].
      cbn. repeat split; try reflexivity.
      intros Hno. exfalso. apply Hno.
      apply find_fcurve_Some in E as (fc' & Hl & <- & <- & _).
      rewrite H in Hl. injection Hl as <-. split; reflexivity.
    + rewrite lookup_set_points_ne by exact Hne.
      exists fc. repeat split; auto.
  - exists fc. rewrite lookup_app_l_Some with (x := fc) by exact H.
    repeat split; auto.
Qed.

Lemma lookup_modify_new (a : Action) (p : string) (j : Z)
  (f : list Keyframe -> list Keyframe) (i : nat) (fc : FCurve) :
  modify a p j f !! i = Some fc -> (List.length a <= i)%nat ->
  data_path fc = p.
Proof.
  unfold modify. destruct (Host.find_fcurve a p j) as [k|] eqn:E.
  - intros H Hge. apply lookup_lt_Some in H.
    rewrite set_points_length in H. lia.
  - intros H Hge. rewrite lookup_app_r in H by exact Hge.
    destruct (i - List.length a)%nat; [|destruct n; discriminate].
    cbn in H. injection H as <-. reflexivity.
Qed.

(** The changes of the copy keep an action an extension. *)
Lemma extends_modify (source_bone target_bone : Bone)
  (source_axes : list string) (a0 a : Action) (prop : string) (j : Z)
  (f : list Keyframe -> list Keyframe) :
  separate source_bone target_bone ->
  extends source_bone target_bone source_axes a0 a ->
  extends source_bone target_bone source_axes a0
    (modify a (pose_path target_bone prop) j f).
Proof.
  intros Hsep [H1 H2]. split.
  - intros i fc0 Hfc0. destruct (H1 i fc0 Hfc0) as (fc & Hfc & Hp & Hi & Hs).
    destruct (lookup_modify a (pose_path target_bone prop) j f i fc Hfc)
      as (fc' & Hfc' & Hp' & Hi' & Hs').
    exists fc'. repeat split; try congruence.
    intros Hsrc. rewrite Hs' ; [apply Hs, Hsrc|].
    intros [Hpath _]. apply Hsrc.
    apply (source_target_of_target _ _ _ _ prop Hsep). congruence.
  - intros i fc Hfc Hge.
    destruct (decide (i < List.length a)%nat) as [Hlt|Hnlt].
    + destruct (lookup_lt_is_Some_2 a i Hlt) as [fc1 Hfc1].
      destruct (lookup_modify a (pose_path target_bone prop) j f i fc1 Hfc1)
        as (fc' & Hfc' & Hp' & Hi' & _).
      rewrite Hfc in Hfc'. injection Hfc' as <-.
      rewrite (source_target_key _ _ _ fc fc1 Hp' Hi').
      apply (H2 i fc1 Hfc1 Hge).
    + apply (source_target_of_target _ _ _ _ prop Hsep).
      eapply lookup_modify_new; [exact Hfc | lia].
Qed.

Lemma change_of_extends (source_bone target_bone : Bone)
  (source_axes : list string) (replace_all : bool) (a0 a : Action) (i : nat)
  (fc0 : FCurve) :
  extends source_bone target_bone source_axes a0 a ->
  a0 !! i = Some fc0 ->
  exists fc, a !! i = Some fc
    /\ change_of source_bone target_bone source_axes replace_all fc
       = change_of source_bone target_bone source_axes replace_all fc0.
Proof.
  intros [H1 _] Hfc0. destruct (H1 i fc0 Hfc0) as (fc & Hfc & Hp & Hi & Hs).
  exists fc. split; [exact Hfc|]. unfold change_of.
  rewrite (source_target_key _ _ _ fc fc0 Hp Hi).
  destruct (source_target source_bone target_bone source_axes fc0)
    as [[[p j] s]|] eqn:E; [|reflexivity].
  cbn. rewrite Hs by discriminate. reflexivity.
Qed.

Lemma omap_agree {A B : Type} (g : A -> option B) (l0 l : list A) :
  (forall i x0, l0 !! i = Some x0 ->
     exists x, l !! i = Some x /\ g x = g x0) ->
  (forall i x, l !! i = Some x -> (List.length l0 <= i)%nat -> g x = None) ->
  omap g l = omap g l0.
Proof.
  revert l. induction l0 as [|x0 l0 IH]; intros l H1 H2.
  - clear H1. induction l as [|x l IHl]; [reflexivity|].
    cbn [omap list_omap]. rewrite (H2 0%nat x eq_refl) by (cbn; lia).
    apply IHl. intros i y Hy _. apply (H2 (S i) y Hy). cbn. lia.
  - destruct (H1 0%nat x0 eq_refl) as (x & Hx & Hg).
    destruct l as [|x' l]; [discriminate|]. cbn in Hx. injection Hx as ->.
    cbn [omap list_omap]. rewrite Hg. rewrite (IH l); [reflexivity| |].
    + intros i y0 Hy0. apply (H1 (S i) y0 Hy0).
    + intros i y Hy Hge. apply (H2 (S i) y Hy). cbn. lia.
Qed.

(** An extension has the changes of the action it extends. *)
Lemma program_extends (source_bone target_bone : Bone)
  (source_axes : list string) (replace_all : bool) (a0 a : Action) :
  extends source_bone target_bone source_axes a0 a ->
  program source_bone target_bone source_axes replace_all a
  = program source_bone target_bone source_axes replace_all a0.
Proof.
  intros Hext. unfold program. apply omap_agree.
  - intros i fc0 Hfc0. eapply change_of_extends; eassumption.
  - intros i fc Hfc Hge. unfold change_of.
    rewrite (proj2 Hext i fc Hfc Hge). reflexivity.
Qed.

Lemma change_of_target (source_bone target_bone : Bone)
  (source_axes : list string) (replace_all : bool) (fc : FCurve)
  (ch : Change) :
  change_of source_bone target_bone source_axes replace_all fc = Some ch ->
  exists prop, ch.1.1 = pose_path target_bone prop.
Proof.
  unfold change_of. intros H.
  apply fmap_Some in H as ([[p j] s] & Hst & ->).
  apply source_target_Some in Hst as [_ ->]. cbn. eauto.
Qed.

(** The steps of the copy loop over the curves of an action are the
    changes of its program. *)
Lemma copy_steps_run (source_bone target_bone : Bone)
  (source_axes : list string) (replace_all : bool) (a0 : Action)
  (l0 : list FCurve) (n : nat) (a : Action) :
  separate source_bone target_bone ->
  drop n a0 = l0 ->
  extends source_bone target_bone source_axes a0 a ->
  foldl (copy_step source_bone target_bone source_axes replace_all) a
    (seq n (List.length l0))
  = run (omap (change_of source_bone target_bone source_axes replace_all)
           l0) a.
Proof.
  intros Hsep. revert n a.
  induction l0 as [|fc0 l0 IH]; intros n a Hdrop Hext; [reflexivity|].
  assert (Hfc0 : a0 !! n = Some fc0).
  { rewrite <- (Nat.add_0_r n), <- lookup_drop, Hdrop. reflexivity. }
  assert (Hdrop' : drop (S n) a0 = l0).
  { rewrite (drop_S _ _ _ Hfc0) in Hdrop. injection Hdrop as ->.
    reflexivity. }
  cbn [List.length seq foldl omap list_omap].
  destruct (change_of_extends _ _ _ replace_all _ _ _ _ Hext Hfc0)
    as (fc & Hfc & Hch).
  unfold copy_step at 2. rewrite Hfc, Hch.
  destruct (change_of source_bone target_bone source_axes replace_all fc0)
    as [ch|] eqn:E.
  - rewrite run_cons. apply IH; [exact Hdrop'|].
    destruct (change_of_target _ _ _ _ _ _ E) as [prop Hprop].
    rewrite Hprop. apply extends_modify; assumption.
  - apply IH; assumption.
Qed.

Lemma copy_loop_run (source_bone target_bone : Bone)
  (source_axes : list string) (replace_all : bool) (a0 : Action)
  (log : list Report) :
  separate source_bone target_bone ->
  fst (copy_loop source_bone target_bone source_axes replace_all (a0, log))
  = run (program source_bone target_bone source_axes replace_all a0) a0.
Proof.
  intros Hsep. unfold copy_loop. rewrite copy_fold_steps by exact Hsep.
  cbn [fst]. apply (copy_steps_run _ _ _ _ a0 a0 0 a0 Hsep).
  - reflexivity.
  - apply extends_refl.
Qed.

Lemma run_extends (source_bone target_bone : Bone)
  (source_axes : list string) (a0 : Action) (changes : list Change)
  (a : Action) :
  separate source_bone target_bone ->
  (forall ch, ch ∈ changes -> exists prop, ch.1.1 = pose_path target_bone prop) ->
  extends source_bone target_bone source_axes a0 a ->
  extends source_bone target_bone source_axes a0 (run changes a).
Proof.
  intros Hsep. revert a.
  induction changes as [|ch changes IH]; intros a Hall Hext; [exact Hext|].
  rewrite run_cons. apply IH.
  - intros ch' H. apply Hall. now right.
  - destruct (Hall ch (list_elem_of_here _ _)) as [prop ->].
    apply extends_modify; assumption.
Qed.

Lemma program_targets (source_bone target_bone : Bone)
  (source_axes : list string) (replace_all : bool) (a : Action)
  (ch : Change) :
  ch ∈ program source_bone target_bone source_axes replace_all a ->
  exists prop, ch.1.1 = pose_path target_bone prop.
Proof.
  unfold program. intros H. apply list_elem_of_omap in H as (fc & _ & Hfc).
  eapply change_of_target. exact Hfc.
Qed.

(** The copy loop run again on the action it has left leaves it. *)
Lemma copy_loop_twice (source_bone target_bone : Bone)
  (source_axes : list string) (replace_all : bool) (a0 : Action)
  (log log' : list Report) :
  separate source_bone target_bone ->
  fst (copy_loop source_bone target_bone source_axes replace_all
         (fst (copy_loop source_bone target_bone source_axes replace_all
                 (a0, log)), log'))
  = fst (copy_loop source_bone target_bone source_axes replace_all
           (a0, log)).
Proof.
  intros Hsep. rewrite !copy_loop_run by exact Hsep.
  set (changes :=
         program source_bone target_bone source_axes replace_all a0).
  rewrite (program_extends _ _ _ _ a0).
  - apply run_twice. intros k c. apply along_program_twice.
  - apply run_extends; [exact Hsep | | apply extends_refl].
    intros ch H. eapply program_targets. exact H.
Qed.

(** ** The copy operators *)

Lemma has_error_app (log log' : list Report) :
  has_error (log ++ log') = has_error log || has_error log'.
Proof. unfold has_error. apply existsb_app. Qed.

Lemma has_error_report (sev : Severity) (m : Message) (st : LoopState) :
  sev <> ERROR -> has_error (snd st) = false ->
  has_error (snd (report sev m st)) = false.
Proof.
  intros Hs H. unfold report. cbn [snd]. rewrite has_error_app, H.
  destruct sev; try reflexivity. contradiction.
Qed.

Lemma has_error_copy_points (src : list Keyframe) (k : nat) (scale j : Z)
  (st : LoopState) :
  has_error (snd st) = false ->
  has_error (snd (copy_points src k scale j st)) = false.
Proof.
  revert st. induction src as [|kp src IH]; intros st H; [exact H|].
  cbn [copy_points]. apply IH.
  apply has_error_report; [discriminate|]. cbn [snd].
  apply has_error_report; [discriminate | exact H].
Qed.

(** The body of the copy loop reports no error. *)
Lemma has_error_copy_fcurve (source_bone target_bone : Bone)
  (source_axes : list string) (replace_all : bool) (i : nat)
  (st : LoopState) :
  has_error (snd st) = false ->
  has_error (snd (copy_fcurve source_bone target_bone source_axes
                    replace_all i st)) = false.
Proof.
  intros H. unfold copy_fcurve.
  destruct (fst st !! i) as [fc|]; [|exact H].
  destruct (negb _); [exact H|].
  destruct (_ || _);
    [apply has_error_report; [discriminate | exact H]|].
  destruct (source_axes !! _) as [label|]; [|exact H].
  destruct (axis_mapping label) as [[j scale]|];
    [|apply has_error_report; [discriminate | exact H]].
  assert (H1 : has_error
                 (snd (report INFO
                         (MappingAxis (array_index fc) label j scale) st))
               = false)
    by (apply has_error_report; [discriminate | exact H]).
  destruct (match Host.find_fcurve _ _ j with
            | Some k => _
            | None => _
            end) as [act2 k].
  destruct (Host.points _ i) as [|kp src].
  - apply has_error_report; [discriminate | exact H1].
  - apply has_error_copy_points. exact H1.
Qed.

Lemma has_error_copy_loop (source_bone target_bone : Bone)
  (source_axes : list string) (replace_all : bool) (st : LoopState) :
  has_error (snd st) = false ->
  has_error (snd (copy_loop source_bone target_bone source_axes replace_all
                    st)) = false.
Proof.
  unfold copy_loop. generalize (seq 0 (List.length (fst st))). intros l.
  revert st. induction l as [|i l IH]; intros st H; [exact H|].
  cbn [foldl]. apply IH, has_error_copy_fcurve, H.
Qed.

(** With one of the two selected bones active and an action, the
    single-axis copy runs the copy loop from the other bone to the active
    one and finishes. *)
Lemma copy_execute (pose : list Bone) (b0 b1 active : Bone) (sc : Scene)
  (action : Action) (axis : string) (secondary : bool) :
  active = b0 \/ active = b1 ->
  CopyBoneKeyframesOperator.execute axis secondary
    (copy_context pose b0 b1 active sc (Some (Some action)))
  = (let st :=
       copy_loop (swap_source b0 b1 active) active
         (fst (profile sc secondary)) (snd (profile sc secondary))
         (action, []) in
     mkResult FINISHED (Some (Some (fst st)))
       (snd st ++ [(INFO, AxisCopied axis)])).
Proof.
  intros Hactive.
  unfold CopyBoneKeyframesOperator.execute, copy_context, swap_source.
  cbn -[bool_decide profile copy_loop].
  assert (Hin : negb (bool_decide (active = b0) || bool_decide (active = b1))
                = false).
  { destruct Hactive as [->| ->].
    - rewrite (bool_decide_true (b0 = b0)) by reflexivity. reflexivity.
    - rewrite (bool_decide_true (b1 = b1)) by reflexivity.
      rewrite orb_true_r. reflexivity. }
  rewrite Hin. destruct (profile sc secondary). reflexivity.
Qed.

Lemma active_selected (b0 b1 active : Bone) :
  active = b0 \/ active = b1 ->
  negb (bool_decide (active = b0) || bool_decide (active = b1)) = false.
Proof.
  intros [->| ->].
  - rewrite (bool_decide_true (b0 = b0)) by reflexivity. reflexivity.
  - rewrite (bool_decide_true (b1 = b1)) by reflexivity.
    rewrite orb_true_r. reflexivity.
Qed.

Lemma copy_execute_no_animation_data (pose : list Bone) (b0 b1 active : Bone)
  (sc : Scene) (axis : string) (secondary : bool) :
  active = b0 \/ active = b1 ->
  CopyBoneKeyframesOperator.execute axis secondary
    (copy_context pose b0 b1 active sc None)
  = mkResult (Raised AttributeError) None [].
Proof.
  intros Hactive. unfold CopyBoneKeyframesOperator.execute, copy_context.
  cbn -[bool_decide profile]. rewrite (active_selected _ _ _ Hactive).
  destruct (profile sc secondary). reflexivity.
Qed.

Lemma copy_execute_no_action (pose : list Bone) (b0 b1 active : Bone)
  (sc : Scene) (axis : string) (secondary : bool) :
  active = b0 \/ active = b1 ->
  CopyBoneKeyframesOperator.execute axis secondary
    (copy_context pose b0 b1 active sc (Some None))
  = mkResult CANCELLED (Some None) [(ERROR, NoAnimationDataFound)].
Proof.
  intros Hactive. unfold CopyBoneKeyframesOperator.execute, copy_context.
  cbn -[bool_decide profile]. rewrite (active_selected _ _ _ Hactive).
  destruct (profile sc secondary). reflexivity.
Qed.

(** One call of the single-axis copy by the copy of all axes, on an
    action. *)
Lemma call_each_step (pose : list Bone) (b0 b1 active : Bone) (sc : Scene)
  (action : Action) (axis : string) (rest : list string) (secondary : bool)
  (log : list Report) :
  active = b0 \/ active = b1 ->
  exists log',
    CopyAllAxesKeyframesOperator.call_each (axis :: rest) secondary
      (copy_context pose b0 b1 active sc (Some (Some action))) log
    = CopyAllAxesKeyframesOperator.call_each rest secondary
        (copy_context pose b0 b1 active sc
           (Some (Some (fst (copy_loop (swap_source b0 b1 active) active
                               (fst (profile sc secondary))
                               (snd (profile sc secondary))
                               (action, []))))))
        log'.
Proof.
  intros Hactive. cbn [CopyAllAxesKeyframesOperator.call_each].
  rewrite (copy_execute pose b0 b1 active sc action axis secondary Hactive).
  cbv zeta. cbn [outcome reports anim_after].
  rewrite has_error_app, has_error_copy_loop by reflexivity.
  cbn [has_error existsb fst orb]. eexists. reflexivity.
Qed.

(** C9: with two bones selected, one of them active, and the paths of the
    active bone apart from the location paths of the other, the single-axis
    copy does the same whatever its axis, up to the axis named by its last
    report; on an action it finishes having made the change of every
    location curve of the source bone, of whatever axis index; and the
    copy of all axes, which calls it three times, leaves the animation
    data that one single-axis copy leaves. *)
Theorem copy_all_is_copy_once (pose : list Bone) (b0 b1 active : Bone)
  (sc : Scene) (anim : AnimData) (axis axis' : string) (secondary : bool)
  (Hactive : active = b0 \/ active = b1)
  (Hseparate : separate (swap_source b0 b1 active) active) :
  copies_every_axis pose b0 b1 active sc anim axis axis' secondary.
Proof.
  unfold copies_every_axis. cbv zeta. split; [|split].
  - (* the axis is named by the last report only *)
    destruct anim as [[action|]|].
    + rewrite !copy_execute by exact Hactive. cbv zeta.
      repeat split. right. eexists. split; reflexivity.
    + rewrite !copy_execute_no_action by exact Hactive.
      repeat split. left. reflexivity.
    + rewrite !copy_execute_no_animation_data by exact Hactive.
      repeat split. left. reflexivity.
  - (* every location curve of the source bone is copied *)
    intros action ->. rewrite copy_execute by exact Hactive. cbv zeta.
    cbn [outcome anim_after]. rewrite copy_loop_run by exact Hseparate.
    split; [reflexivity|]. split; [reflexivity|].
    intros i j scale src (fc & label & Hfc & Hp & H0 & Hl & Hm & <-).
    unfold program. apply list_elem_of_omap. exists fc. split.
    + apply list_elem_of_lookup. eauto.
    + unfold change_of.
      rewrite (source_target_location _ _ _ fc label j scale Hp H0 Hl Hm).
      reflexivity.
  - (* three copies leave what one leaves *)
    unfold CopyAllAxesKeyframesOperator.execute.
    cbn -[bool_decide CopyAllAxesKeyframesOperator.call_each
          CopyBoneKeyframesOperator.execute].
    rewrite (active_selected _ _ _ Hactive).
    fold (copy_context pose b0 b1 active sc anim).
    destruct anim as [[action|]|].
    + pose (L := fun a : Action =>
                   fst (copy_loop (swap_source b0 b1 active) active
                          (fst (profile sc secondary))
                          (snd (profile sc secondary)) (a, []))).
      destruct (call_each_step pose b0 b1 active sc action "X" ["Y"; "Z"]
                  secondary [] Hactive) as [log1 ->].
      destruct (call_each_step pose b0 b1 active sc (L action) "Y" ["Z"]
                  secondary log1 Hactive) as [log2 H2].
      unfold L in H2. rewrite H2. clear H2.
      destruct (call_each_step pose b0 b1 active sc (L (L action)) "Z" []
                  secondary log2 Hactive) as [log3 H3].
      unfold L in H3. rewrite H3. clear H3 L.
      rewrite !copy_loop_twice by exact Hseparate.
      rewrite copy_execute by exact Hactive. reflexivity.
    + cbn [CopyAllAxesKeyframesOperator.call_each].
      rewrite !copy_execute_no_action by exact Hactive. reflexivity.
    + cbn [CopyAllAxesKeyframesOperator.call_each].
      rewrite !copy_execute_no_animation_data by exact Hactive. reflexivity.
Qed.

Lemma separate_arm_hand : separate "Arm" "Hand".
Proof. intros prop. reflexivity. Qed.

Lemma copy_all_is_copy_once_example :
  ("Hand" = "Arm" \/ "Hand" = "Hand")
  /\ separate (swap_source "Arm" "Hand" "Hand") "Hand"
  /\ copies_every_axis ["Arm"; "Hand"] "Arm" "Hand" "Hand"
       (x_to_minus_y false) (Some (Some three_axes_action)) "X" "Z" false.
Proof.
  assert (H1 : "Hand" = "Arm" \/ "Hand" = "Hand") by (right; reflexivity).
  assert (H2 : separate (swap_source "Arm" "Hand" "Hand") "Hand")
    by exact separate_arm_hand.
  split; [exact H1|]. split; [exact H2|].
  apply (copy_all_is_copy_once ["Arm"; "Hand"] "Arm" "Hand" "Hand"
           (x_to_minus_y false) (Some (Some three_axes_action)) "X" "Z" false
           H1 H2).
Defined.

(** On the example, the copy named after the X axis copies the Y and Z
    curves too (X and Y are both mapped onto the Y curve of the target,
    where the later copy replaces the value at frame 1), and the copy of
    all axes leaves the same curves. *)
Lemma copy_every_axis_example :
  let context :=
    copy_context ["Arm"; "Hand"] "Arm" "Hand" "Hand" (x_to_minus_y false)
      (Some (Some three_axes_action)) in
  let once := CopyBoneKeyframesOperator.execute "X" false context in
  coords <$> channel_after once (pose_path "Hand" "location") 1
    = Some [(1, 4); (10, 3)]%Q
  /\ coords <$> channel_after once (pose_path "Hand" "location") 2
     = Some [(5, 6); (7, 8)]%Q
  /\ anim_after (CopyAllAxesKeyframesOperator.execute false context)
     = anim_after once.
Proof. repeat split; reflexivity. Qed.

(** ** Names that keep the paths of two bones apart *)

Lemma startswith_app_same (pre x y : string) :
  PyStr.startswith (pre +:+ x) (pre +:+ y) = PyStr.startswith x y.
Proof.
  induction pre as [|c pre IH]; rewrite ?app_nil_eq, ?app_cons_eq;
    [reflexivity|].
  cbn [PyStr.startswith]. rewrite Ascii.eqb_refl. exact IH.
Qed.

Lemma dquote_app (x : string) : dquote +:+ x = String "034"%char x.
Proof. reflexivity. Qed.

Lemma startswith_names (s t r r' : string) :
  s <> t -> no_dquote s = true -> no_dquote t = true ->
  PyStr.startswith (t +:+ dquote +:+ r) (s +:+ dquote +:+ r') = false.
Proof.
  revert t. induction s as [|c s IH]; intros [|d t] Hne Hs Ht;
    rewrite ?app_nil_eq, ?app_cons_eq.
  - contradiction.
  - cbn [no_dquote] in Ht. apply andb_true_iff in Ht as [Hd _].
    rewrite !dquote_app. cbn [PyStr.startswith].
    destruct (Ascii.eqb_spec "034"%char d) as [<-|]; [discriminate|].
    reflexivity.
  - cbn [no_dquote] in Hs. apply andb_true_iff in Hs as [Hc _].
    rewrite !dquote_app. cbn [PyStr.startswith].
    destruct (Ascii.eqb_spec c "034"%char) as [->|]; [discriminate|].
    reflexivity.
  - cbn [no_dquote] in Hs, Ht.
    apply andb_true_iff in Hs as [_ Hs]. apply andb_true_iff in Ht as [_ Ht].
    cbn [PyStr.startswith].
    destruct (Ascii.eqb_spec c d) as [->|]; [|reflexivity].
    apply IH; [congruence | exact Hs | exact Ht].
Qed.

(** Two different names without double quotes keep the paths apart. *)
Lemma separate_names (source_bone target_bone : Bone) :
  source_bone <> target_bone ->
  no_dquote source_bone = true -> no_dquote target_bone = true ->
  separate source_bone target_bone.
Proof.
  intros Hne Hs Ht prop. unfold pose_path.
  rewrite startswith_app_same.
  rewrite (dquote_app (target_bone +:+ _)), (dquote_app (source_bone +:+ _)).
  cbn [PyStr.startswith]. rewrite Ascii.eqb_refl.
  apply startswith_names; assumption.
Qed.

(** ** The single-axis copy, channel by channel *)





(** * Further properties of the operators *)

(** ** Flipping twice *)






(** ** Operators that do not finish *)

Lemma copy_finished_inv (axis : string) (secondary : bool)
  (context : Context) :
  outcome (CopyBoneKeyframesOperator.execute axis secondary context)
  = FINISHED ->
  exists pose b0 b1 active sc action,
    context = copy_context pose b0 b1 active sc (Some (Some action))
    /\ (active = b0 \/ active = b1).
Proof.
  destruct context as [[[ty pose anim]|] sel act sc];
    unfold CopyBoneKeyframesOperator.execute;
    cbn -[bool_decide profile copy_loop]; [|discriminate].
  destruct ty; cbn -[bool_decide profile copy_loop]; try discriminate.
  destruct sel as [|b0 [|b1 [|b2 sel]]]; try discriminate.
  destruct act as [active|]; [|discriminate].
  destruct (negb (bool_decide (active = b0) || bool_decide (active = b1)))
    eqn:E; [discriminate|].
  destruct (profile sc secondary) as [axes ra].
  destruct anim as [[action|]|]; try discriminate.
  intros _. exists pose, b0, b1, active, sc, action. split; [reflexivity|].
  apply negb_false_iff, orb_true_iff in E as [E|E];
    apply bool_decide_eq_true in E; auto.
Qed.

Lemma copy_unfinished (axis : string) (secondary : bool)
  (context : Context) :
  outcome (CopyBoneKeyframesOperator.execute axis secondary context)
  <> FINISHED ->
  anim_after (CopyBoneKeyframesOperator.execute axis secondary context)
  = anim_of context
  /\ (outcome (CopyBoneKeyframesOperator.execute axis secondary context)
      = CANCELLED ->
      has_error
        (reports (CopyBoneKeyframesOperator.execute axis secondary context))
      = true).
Proof.
  destruct context as [[[ty pose anim]|] sel act sc];
    unfold CopyBoneKeyframesOperator.execute;
    cbn -[bool_decide profile copy_loop]; [|split; reflexivity].
  destruct ty; cbn -[bool_decide profile copy_loop];
    try (split; reflexivity).
  destruct sel as [|b0 [|b1 [|b2 sel]]]; try (split; reflexivity).
  destruct act as [active|]; [|split; reflexivity].
  destruct (negb (bool_decide (active = b0) || bool_decide (active = b1)));
    [split; reflexivity|].
  destruct (profile sc secondary) as [axes ra].
  destruct anim as [[action|]|]; cbn; intros H;
    [contradiction | split; reflexivity | split; [reflexivity|discriminate]].
Qed.

Lemma remap_pairs_finished (sc : Scene) (pairs : list (Bone * Bone))
  (action : Action) (log : list Report) :
  outcome (RemapAllBonesOperator.remap_pairs sc pairs (Some (Some action))
             log) = FINISHED.
Proof.
  revert action log. induction pairs as [|[s t] pairs IH]; intros action log;
    [reflexivity|].
  cbn -[profile copy_loop]. destruct (profile sc _). apply IH.
Qed.

Lemma remap_pairs_unfinished (sc : Scene) (pairs : list (Bone * Bone))
  (anim : AnimData) (log : list Report) :
  outcome (RemapAllBonesOperator.remap_pairs sc pairs anim log) <> FINISHED ->
  anim_after (RemapAllBonesOperator.remap_pairs sc pairs anim log) = anim.
Proof.
  destruct anim as [[action|]|].
  - rewrite remap_pairs_finished. contradiction.
  - destruct pairs as [|[s t] pairs]; [cbn; contradiction|].
    cbn -[profile]. destruct (profile sc _). reflexivity.
  - destruct pairs as [|[s t] pairs]; [cbn; contradiction|].
    cbn -[profile]. destruct (profile sc _). reflexivity.
Qed.

Lemma call_each_finished (pose : list Bone) (b0 b1 active : Bone)
  (sc : Scene) (secondary : bool) (axes : list string) (action : Action)
  (log : list Report) :
  active = b0 \/ active = b1 ->
  outcome (CopyAllAxesKeyframesOperator.call_each axes secondary
             (copy_context pose b0 b1 active sc (Some (Some action))) log)
  = FINISHED.
Proof.
  intros Hactive. revert action log.
  induction axes as [|axis axes IH]; intros action log; [reflexivity|].
  destruct (call_each_step pose b0 b1 active sc action axis axes secondary
              log Hactive) as [log' ->].
  apply IH.
Qed.

Lemma call_each_unfinished (axes : list string) (secondary : bool)
  (context : Context) (log : list Report) :
  outcome (CopyAllAxesKeyframesOperator.call_each axes secondary context
             log) <> FINISHED ->
  anim_after (CopyAllAxesKeyframesOperator.call_each axes secondary context
                log) = anim_of context.
Proof.
  destruct axes as [|axis axes]; [cbn; contradiction|].
  destruct (outcome (CopyBoneKeyframesOperator.execute axis secondary
                       context)) eqn:E.
  - apply copy_finished_inv in E
      as (pose & b0 & b1 & active & sc & action & -> & Hactive).
    intros H. exfalso. apply H. apply call_each_finished. exact Hactive.
  - intros _. cbn [CopyAllAxesKeyframesOperator.call_each]. rewrite E.
    destruct (copy_unfinished axis secondary context) as [Ha He];
      [rewrite E; discriminate|].
    rewrite (He E). exact Ha.
  - intros _. cbn [CopyAllAxesKeyframesOperator.call_each]. rewrite E.
    destruct (copy_unfinished axis secondary context) as [Ha _];
      [rewrite E; discriminate|].
    exact Ha.
Qed.

(** X2: each of the five operators, on every context, either finishes or
    leaves the animation data of the object as it was; in particular the
    copy of all axes and the remap of all bones do not stop half way
    through their calls or pairs. *)
Theorem unfinished_operators_change_nothing (context : Context)
  (axis property : string) (index : Z) (secondary : bool) :
  untouched_unless_finished context
    (CopyBoneKeyframesOperator.execute axis secondary context)
  /\ untouched_unless_finished context
       (CopyAllAxesKeyframesOperator.execute secondary context)
  /\ untouched_unless_finished context
       (RemapAllBonesOperator.execute context)
  /\ untouched_unless_finished context
       (FlipKeyframeAxisOperator.execute property index context)
  /\ untouched_unless_finished context
       (SwapKeyframesOperator.execute context).
Proof.
  unfold untouched_unless_finished. repeat split.
  - intros H. apply copy_unfinished. exact H.
  - destruct context as [[[ty pose anim]|] sel act sc];
      unfold CopyAllAxesKeyframesOperator.execute;
      cbn -[bool_decide CopyAllAxesKeyframesOperator.call_each];
      [|reflexivity].
    destruct ty; cbn -[bool_decide CopyAllAxesKeyframesOperator.call_each];
      try reflexivity.
    destruct sel as [|b0 [|b1 [|b2 sel]]]; try reflexivity.
    destruct act as [active|]; [|reflexivity].
    destruct (negb (bool_decide (active = b0)
                    || bool_decide (active = b1))); [reflexivity|].
    intros H. apply call_each_unfinished in H. exact H.
  - destruct context as [[[ty pose anim]|] sel act sc];
      unfold RemapAllBonesOperator.execute;
      cbn -[RemapAllBonesOperator.pair_bones
            RemapAllBonesOperator.remap_pairs]; [|reflexivity].
    destruct ty;
      cbn -[RemapAllBonesOperator.pair_bones
            RemapAllBonesOperator.remap_pairs]; try reflexivity.
    destruct sel as [|b sel]; [reflexivity|].
    destruct (RemapAllBonesOperator.pair_bones _ _ _ _) as [|pair pairs];
      [reflexivity|].
    intros H. apply remap_pairs_unfinished in H. exact H.
  - destruct context as [[[ty pose anim]|] sel act sc];
      unfold FlipKeyframeAxisOperator.execute;
      cbn -[Host.find_fcurve]; [|reflexivity].
    destruct ty; cbn -[Host.find_fcurve]; try reflexivity.
    destruct act as [bone|]; [|reflexivity].
    destruct anim as [[action|]|]; try reflexivity.
    destruct (Host.find_fcurve action _ index); [|reflexivity].
    cbn. contradiction.
  - destruct context as [[[ty pose anim]|] sel act sc];
      unfold SwapKeyframesOperator.execute;
      cbn -[bool_decide SwapKeyframesOperator.combinations foldl];
      [|reflexivity].
    destruct ty;
      cbn -[bool_decide SwapKeyframesOperator.combinations foldl];
      try reflexivity.
    destruct sel as [|b0 [|b1 [|b2 sel]]]; try reflexivity.
    destruct act as [active|]; [|reflexivity].
    destruct (negb (bool_decide (active = b0)
                    || bool_decide (active = b1))); [reflexivity|].
    destruct anim as [[action|]|]; try reflexivity.
    intros H. exfalso. apply H. reflexivity.
Qed.

(** ** Curves the copy passes over *)

Lemma copy_loop_no_source (source_bone target_bone : Bone)
  (source_axes : list string) (replace_all : bool) (l : list nat)
  (st : LoopState) :
  (forall fc, fc ∈ fst st ->
     PyStr.startswith (data_path fc) (pose_path source_bone "location")
     = false) ->
  foldl (fun s i => copy_fcurve source_bone target_bone source_axes
                      replace_all i s) st l = st.
Proof.
  intros Hno. induction l as [|i l IH]; [reflexivity|].
  cbn [foldl].
  assert (E : copy_fcurve source_bone target_bone source_axes replace_all i
                st = st).
  { unfold copy_fcurve. destruct (fst st !! i) as [fc|] eqn:Hfc;
      [|reflexivity].
    rewrite (Hno fc) by (apply list_elem_of_lookup; eauto). reflexivity. }
  rewrite E. exact IH.
Qed.

(** X3: with two bones selected, one of them active, on an action without
    a curve whose path starts as a location path of the other bone, the
    single-axis copy changes nothing and still finishes, reporting that
    the keyframes of its axis were copied. *)
Theorem copy_without_source_curves (pose : list Bone) (b0 b1 active : Bone)
  (sc : Scene) (action : Action) (axis : string) (secondary : bool)
  (Hactive : active = b0 \/ active = b1)
  (Hnone : forall fc, fc ∈ action ->
     PyStr.startswith (data_path fc)
       (pose_path (swap_source b0 b1 active) "location") = false) :
  CopyBoneKeyframesOperator.execute axis secondary
    (copy_context pose b0 b1 active sc (Some (Some action)))
  = mkResult FINISHED (Some (Some action)) [(INFO, AxisCopied axis)].
Proof.
  rewrite copy_execute by exact Hactive. cbv zeta. unfold copy_loop.
  rewrite copy_loop_no_source by exact Hnone. reflexivity.
Qed.

Lemma copy_without_source_curves_example :
  ("Hand" = "Arm" \/ "Hand" = "Hand")
  /\ (forall fc, fc ∈ scale_action ->
        PyStr.startswith (data_path fc)
          (pose_path (swap_source "Arm" "Hand" "Hand") "location") = false)
  /\ CopyBoneKeyframesOperator.execute "Y" false
       (copy_context ["Arm"; "Hand"] "Arm" "Hand" "Hand" default_scene
          (Some (Some scale_action)))
     = mkResult FINISHED (Some (Some scale_action))
         [(INFO, AxisCopied "Y")].
Proof.
  assert (H1 : "Hand" = "Arm" \/ "Hand" = "Hand") by (right; reflexivity).
  assert (H2 : forall fc, fc ∈ scale_action ->
            PyStr.startswith (data_path fc)
              (pose_path (swap_source "Arm" "Hand" "Hand") "location")
            = false).
  { intros fc Hfc. unfold scale_action in Hfc.
    apply list_elem_of_singleton in Hfc. subst fc. reflexivity. }
  split; [exact H1|]. split; [exact H2|].
  apply (copy_without_source_curves ["Arm"; "Hand"] "Arm" "Hand" "Hand"
           default_scene scale_action "Y" false H1 H2).
Defined.

(** X4: the body of the copy loop passes over a curve whose path starts
    as a location path of the source bone when its array index is not that
    of one of the axis labels, or when the label of its index is not one
    of the six of the axis table: the action is left as it is and one
    warning is reported. *)
Theorem copy_passes_over_odd_curves (source_bone target_bone : Bone)
  (source_axes : list string) (replace_all : bool) (i : nat)
  (st : LoopState) (fc : FCurve)
  (Hfc : fst st !! i = Some fc)
  (Hpath : PyStr.startswith (data_path fc)
             (pose_path source_bone "location") = true)
  (Hodd : array_index fc < 0
          \/ Z.of_nat (List.length source_axes) <= array_index fc
          \/ exists label,
               source_axes !! Z.to_nat (array_index fc) = Some label
               /\ axis_mapping label = None) :
  passed_over_with_warning st
    (copy_fcurve source_bone target_bone source_axes replace_all i st) fc
    source_axes.
Proof.
  unfold passed_over_with_warning, copy_fcurve. rewrite Hfc, Hpath.
  cbn [negb].
  destruct (array_index fc <? 0) eqn:E1.
  - cbn [orb report fst snd]. split; [reflexivity|].
    destruct (source_axes !! _); reflexivity.
  - apply Z.ltb_ge in E1. cbn [orb].
    destruct (array_index fc >=? Z.of_nat (List.length source_axes)) eqn:E2.
    + cbn [report fst snd]. split; [reflexivity|].
      apply Z.geb_le in E2.
      rewrite (lookup_ge_None_2 source_axes) by lia. reflexivity.
    + destruct Hodd as [H|[H|(label & Hl & Hm)]]; [lia | |].
      * apply Z.geb_le in H. congruence.
      * rewrite Hl, Hm. cbn [report fst snd]. split; reflexivity.
Qed.

Lemma copy_passes_over_odd_curves_example :
  fst (odd_index_action, @nil Report) !! 0%nat
  = Some (mkFCurve (pose_path "Arm" "location") 3 [key 1 2])
  /\ PyStr.startswith
       (data_path (mkFCurve (pose_path "Arm" "location") 3 [key 1 2]))
       (pose_path "Arm" "location") = true
  /\ (array_index (mkFCurve (pose_path "Arm" "location") 3 [key 1 2]) < 0
      \/ Z.of_nat (List.length ["X+"; "Y+"; "Z+"])
         <= array_index (mkFCurve (pose_path "Arm" "location") 3 [key 1 2])
      \/ exists label,
           ["X+"; "Y+"; "Z+"]
             !! Z.to_nat
                  (array_index
                     (mkFCurve (pose_path "Arm" "location") 3 [key 1 2]))
           = Some label
           /\ axis_mapping label = None)
  /\ passed_over_with_warning (odd_index_action, [])
       (copy_fcurve "Arm" "Hand" ["X+"; "Y+"; "Z+"] true 0
          (odd_index_action, []))
       (mkFCurve (pose_path "Arm" "location") 3 [key 1 2])
       ["X+"; "Y+"; "Z+"].
Proof.
  assert (H1 : fst (odd_index_action, @nil Report) !! 0%nat
               = Some (mkFCurve (pose_path "Arm" "location") 3 [key 1 2]))
    by reflexivity.
  assert (H2 : PyStr.startswith
                 (data_path
                    (mkFCurve (pose_path "Arm" "location") 3 [key 1 2]))
                 (pose_path "Arm" "location") = true) by reflexivity.
  assert (H3 : array_index
                 (mkFCurve (pose_path "Arm" "location") 3 [key 1 2]) < 0
               \/ Z.of_nat (List.length ["X+"; "Y+"; "Z+"])
                  <= array_index
                       (mkFCurve (pose_path "Arm" "location") 3 [key 1 2])
               \/ exists label,
                    ["X+"; "Y+"; "Z+"]
                      !! Z.to_nat
                           (array_index
                              (mkFCurve (pose_path "Arm" "location") 3
                                 [key 1 2]))
                    = Some label
                    /\ axis_mapping label = None)
    by (right; left; cbn; lia).
  split; [exact H1|]. split; [exact H2|]. split; [exact H3|].
  apply (copy_passes_over_odd_curves "Arm" "Hand" ["X+"; "Y+"; "Z+"] true 0
           (odd_index_action, []) _ H1 H2 H3).
Defined.

(** ** What the copy may change *)

Lemma axis_mapping_range (label : string) (j scale : Z) :
  axis_mapping label = Some (j, scale) ->
  0 <= j <= 2 /\ (scale = 1 \/ scale = -1).
Proof.
  unfold axis_mapping.
  repeat (destruct (String.eqb label _);
          [intros H; injection H as <- <-; lia|]).
  discriminate.
Qed.

(** The body of the copy loop leaves the action or gives new points to
    one curve of the target bone, of index 0, 1 or 2, which it creates
    when there is none: points inserted into those the curve had, or into
    none. *)
Lemma copy_fcurve_shape (source_bone target_bone : Bone)
  (source_axes : list string) (replace_all : bool) (i : nat)
  (act : Action) (log : list Report) :
  fst (copy_fcurve source_bone target_bone source_axes replace_all i
         (act, log)) = act
  \/ exists prop j src base,
       0 <= j <= 2
       /\ (base = []
           \/ exists k,
                Host.find_fcurve act (pose_path target_bone prop) j = Some k
                /\ base = Host.points act k)
       /\ fst (copy_fcurve source_bone target_bone source_axes replace_all
                 i (act, log))
          = modify act (pose_path target_bone prop) j
              (fun _ => insert_all src base).
Proof.
  unfold copy_fcurve. cbn [fst snd].
  destruct (act !! i) as [fc|]; [|left; reflexivity].
  destruct (negb _); [left; reflexivity|].
  destruct (_ || _); [left; reflexivity|].
  destruct (source_axes !! _) as [label|]; [|left; reflexivity].
  destruct (axis_mapping label) as [[j scale]|] eqn:Hm;
    [|left; reflexivity].
  apply axis_mapping_range in Hm as [Hj _].
  right. exists (PyStr.last_segment (data_path fc)), j.
  set (path := pose_path target_bone (PyStr.last_segment (data_path fc))).
  cbn [report fst snd]. unfold modify.
  destruct (Host.find_fcurve act path j) as [k|] eqn:Hfind.
  - pose proof (find_fcurve_lt _ _ _ _ Hfind) as Hk.
    destruct replace_all.
    + generalize (Host.points (Host.clear act k) i). intros src.
      exists (scaled scale src), []. split; [exact Hj|].
      split; [left; reflexivity|].
      rewrite copy_tail_action
        by (unfold Host.clear; rewrite set_points_length; exact Hk).
      unfold Host.clear. rewrite points_set_points by exact Hk.
      apply set_points_set_points.
    + generalize (Host.points act i). intros src.
      exists (scaled scale src), (Host.points act k). split; [exact Hj|].
      split; [right; eauto|].
      apply copy_tail_action. exact Hk.
  - unfold Host.fcurves_new.
    assert (Hc : (if replace_all
                  then Host.clear (act ++ [mkFCurve path j []])
                         (List.length act)
                  else act ++ [mkFCurve path j []])
                 = act ++ [mkFCurve path j []]).
    { destruct replace_all; [|reflexivity].
      unfold Host.clear. apply set_points_app_new. }
    rewrite Hc. generalize (Host.points (act ++ [mkFCurve path j []]) i).
    intros src. exists (scaled scale src), []. split; [exact Hj|].
    split; [left; reflexivity|].
    rewrite copy_tail_action by (rewrite length_app; cbn; lia).
    rewrite points_app_new, set_points_app_new. reflexivity.
Qed.

Lemma only_target_changed_refl (target_bone : Bone) (a : Action) :
  only_target_changed target_bone a a.
Proof.
  split; [|split].
  - auto.
  - intros i fc H. exists fc. auto.
  - intros i fc H Hge. apply lookup_lt_Some in H. lia.
Qed.

Lemma only_target_changed_trans (target_bone : Bone) (a0 a1 a2 : Action) :
  only_target_changed target_bone a0 a1 ->
  only_target_changed target_bone a1 a2 ->
  only_target_changed target_bone a0 a2.
Proof.
  intros (H1 & H2 & H3) (K1 & K2 & K3). split; [|split].
  - intros i fc Hfc Hno. apply K1; [|exact Hno]. apply H1; assumption.
  - intros i fc Hfc. destruct (H2 i fc Hfc) as (fc1 & Hfc1 & Hp1 & Hi1).
    destruct (K2 i fc1 Hfc1) as (fc2 & Hfc2 & Hp2 & Hi2).
    exists fc2. repeat split; congruence.
  - intros i fc Hfc Hge.
    destruct (decide (i < List.length a1)%nat) as [Hlt|Hnlt].
    + destruct (lookup_lt_is_Some_2 a1 i Hlt) as [fc1 Hfc1].
      destruct (K2 i fc1 Hfc1) as (fc2 & Hfc2 & Hp2 & Hi2).
      rewrite Hfc in Hfc2. injection Hfc2 as <-.
      rewrite Hp2, Hi2. apply (H3 i fc1 Hfc1 Hge).
    + apply (K3 i fc Hfc). lia.
Qed.

Lemma lookup_modify_added (a : Action) (p : string) (j : Z)
  (f : list Keyframe -> list Keyframe) (i : nat) (fc : FCurve) :
  modify a p j f !! i = Some fc -> (List.length a <= i)%nat ->
  data_path fc = p /\ array_index fc = j.
Proof.
  unfold modify. destruct (Host.find_fcurve a p j) as [k|] eqn:E.
  - intros H Hge. apply lookup_lt_Some in H.
    rewrite set_points_length in H. lia.
  - intros H Hge. rewrite lookup_app_r in H by exact Hge.
    destruct (i - List.length a)%nat; [|destruct n; discriminate].
    cbn in H. injection H as <-. split; reflexivity.
Qed.

Lemma modify_only_target (target_bone : Bone) (a : Action) (prop : string)
  (j : Z) (f : list Keyframe -> list Keyframe) :
  0 <= j <= 2 ->
  only_target_changed target_bone a (modify a (pose_path target_bone prop) j f).
Proof.
  intros Hj. split; [|split].
  - intros i fc Hfc Hno.
    destruct (lookup_modify a (pose_path target_bone prop) j f i fc Hfc)
      as (fc' & Hfc' & Hp & Hi & Hpts).
    rewrite Hfc'. f_equal.
    destruct fc as [p0 i0 c0], fc' as [p1 i1 c1]. cbn in *.
    rewrite Hp, Hi, Hpts; [reflexivity|].
    intros [E _]. apply (Hno prop). exact E.
  - intros i fc Hfc.
    destruct (lookup_modify a (pose_path target_bone prop) j f i fc Hfc)
      as (fc' & Hfc' & Hp & Hi & _).
    exists fc'. auto.
  - intros i fc Hfc Hge.
    destruct (lookup_modify_added _ _ _ _ _ _ Hfc Hge) as [-> ->].
    split; [eauto | exact Hj].
Qed.

Lemma copy_fcurve_only_target (source_bone target_bone : Bone)
  (source_axes : list string) (replace_all : bool) (i : nat)
  (st : LoopState) :
  only_target_changed target_bone (fst st)
    (fst (copy_fcurve source_bone target_bone source_axes replace_all i st)).
Proof.
  destruct st as [act log]. cbn [fst].
  destruct (copy_fcurve_shape source_bone target_bone source_axes
              replace_all i act log)
    as [->|(prop & j & src & base & Hj & _ & ->)].
  - apply only_target_changed_refl.
  - apply modify_only_target. exact Hj.
Qed.

Lemma copy_loop_only_target (source_bone target_bone : Bone)
  (source_axes : list string) (replace_all : bool) (st : LoopState) :
  only_target_changed target_bone (fst st)
    (fst (copy_loop source_bone target_bone source_axes replace_all st)).
Proof.
  unfold copy_loop. generalize (seq 0 (List.length (fst st))). intros l.
  revert st. induction l as [|i l IH]; intros st.
  - apply only_target_changed_refl.
  - cbn [foldl]. eapply only_target_changed_trans; [|apply IH].
    apply copy_fcurve_only_target.
Qed.

(** X5: with two bones selected, one of them active, on an action, the
    single-axis copy finishes and has changed curves of the active bone
    only: every curve that is not a curve of the active bone is in place
    as it was, no curve has gone or changed its path or index, and the
    curves added are curves of the active bone of index 0, 1 or 2. *)
Theorem copy_changes_target_only (pose : list Bone) (b0 b1 active : Bone)
  (sc : Scene) (action : Action) (axis : string) (secondary : bool)
  (Hactive : active = b0 \/ active = b1) :
  exists action',
    anim_after
      (CopyBoneKeyframesOperator.execute axis secondary
         (copy_context pose b0 b1 active sc (Some (Some action))))
    = Some (Some action')
    /\ only_target_changed active action action'.
Proof.
  rewrite copy_execute by exact Hactive. cbv zeta. cbn [anim_after].
  eexists. split; [reflexivity|].
  apply (copy_loop_only_target _ _ _ _ (action, [])).
Qed.

Lemma copy_changes_target_only_example :
  ("Hand" = "Arm" \/ "Hand" = "Hand")
  /\ exists action',
       anim_after
         (CopyBoneKeyframesOperator.execute "X" false
            (copy_context ["Arm"; "Hand"] "Arm" "Hand" "Hand"
               (x_to_minus_y true) (Some (Some three_axes_action))))
       = Some (Some action')
       /\ only_target_changed "Hand" three_axes_action action'.
Proof.
  assert (H1 : "Hand" = "Arm" \/ "Hand" = "Hand") by (right; reflexivity).
  split; [exact H1|].
  apply (copy_changes_target_only ["Arm"; "Hand"] "Arm" "Hand" "Hand"
           (x_to_minus_y true) three_axes_action "X" false H1).
Defined.

(** With the paths of the two bones apart, the curves the copy reads are
    curves it leaves as they were. *)
Lemma copy_keeps_sources (source_bone target_bone : Bone)
  (source_axes : list string) (replace_all : bool) (st : LoopState)
  (i : nat) (fc : FCurve) :
  separate source_bone target_bone ->
  fst st !! i = Some fc ->
  PyStr.startswith (data_path fc) (pose_path source_bone "location") = true ->
  fst (copy_loop source_bone target_bone source_axes replace_all st) !! i
  = Some fc.
Proof.
  intros Hsep Hfc Hs.
  apply (proj1 (copy_loop_only_target source_bone target_bone source_axes
                  replace_all st) i fc Hfc).
  intros prop E. rewrite E, Hsep in Hs. discriminate.
Qed.

(** ** The order of the points *)

Lemma strictly_ordered_head (p q : Keyframe) (pts : list Keyframe) :
  strictly_ordered (p :: q :: pts) = true
  <-> (time p < time q)%Q /\ strictly_ordered (q :: pts) = true.
Proof.
  cbn [strictly_ordered]. rewrite Qlt_alt.
  destruct (Qcompare (time p) (time q)); split; intros H;
    try discriminate; try tauto; destruct H; discriminate.
Qed.

Lemma strictly_ordered_tail (p : Keyframe) (pts : list Keyframe) :
  strictly_ordered (p :: pts) = true -> strictly_ordered pts = true.
Proof. intros H. apply strictly_ordered_cons in H. tauto. Qed.

(** The head may be replaced by a point at the same time. *)
Lemma strictly_ordered_same_time (p p' : Keyframe) (pts : list Keyframe) :
  time p' = time p ->
  strictly_ordered (p :: pts) = true -> strictly_ordered (p' :: pts) = true.
Proof.
  intros Ht. destruct pts as [|q pts]; [reflexivity|].
  rewrite !strictly_ordered_head, Ht. tauto.
Qed.

(** An insertion keeps a curve strictly ordered. *)
Lemma ins_strictly_ordered (t v : Q) (pts : list Keyframe) :
  strictly_ordered pts = true -> strictly_ordered (ins t v pts) = true.
Proof.
  induction pts as [|p pts IH]; intros Ho; [reflexivity|].
  rewrite ins_cons. destruct (Qcompare t (time p)) eqn:E.
  - apply (strictly_ordered_same_time p); [reflexivity | exact Ho].
  - apply strictly_ordered_head. split; [|exact Ho].
    apply Qlt_alt. exact E.
  - pose proof (proj2 (Qgt_alt _ _) E) as Hgt.
    specialize (IH (strictly_ordered_tail _ _ Ho)).
    destruct pts as [|q pts].
    + rewrite ins_nil. apply strictly_ordered_head. split; [exact Hgt|].
      reflexivity.
    + apply strictly_ordered_head in Ho as [Hpq Ho].
      rewrite ins_cons in *. destruct (Qcompare t (time q)) eqn:E'.
      * apply strictly_ordered_head. split; [exact Hpq | exact IH].
      * apply strictly_ordered_head. split; [exact Hgt | exact IH].
      * apply strictly_ordered_head. split; [exact Hpq | exact IH].
Qed.

Lemma insert_all_strictly_ordered (src : list (Q * Q))
  (pts : list Keyframe) :
  strictly_ordered pts = true ->
  strictly_ordered (insert_all src pts) = true.
Proof.
  revert pts. induction src as [|fv src IH]; intros pts Ho; [exact Ho|].
  rewrite insert_all_cons. apply IH, ins_strictly_ordered, Ho.
Qed.

Lemma all_ordered_modify (a : Action) (p : string) (j : Z)
  (pts : list Keyframe) :
  all_ordered a = true -> strictly_ordered pts = true ->
  all_ordered (modify a p j (fun _ => pts)) = true.
Proof.
  intros Ha Hp. apply all_ordered_points. intros n.
  rewrite all_ordered_points in Ha. rewrite points_modify.
  destruct (Host.find_fcurve a p j); case_decide; auto.
Qed.

Lemma copy_fcurve_all_ordered (source_bone target_bone : Bone)
  (source_axes : list string) (replace_all : bool) (i : nat)
  (st : LoopState) :
  all_ordered (fst st) = true ->
  all_ordered
    (fst (copy_fcurve source_bone target_bone source_axes replace_all i st))
  = true.
Proof.
  destruct st as [act log]. cbn [fst]. intros Ho.
  destruct (copy_fcurve_shape source_bone target_bone source_axes
              replace_all i act log)
    as [->|(prop & j & src & base & _ & Hbase & ->)]; [exact Ho|].
  apply all_ordered_modify; [exact Ho|].
  apply insert_all_strictly_ordered.
  destruct Hbase as [->|(k & _ & ->)]; [reflexivity|].
  apply all_ordered_points. exact Ho.
Qed.

Lemma copy_loop_all_ordered (source_bone target_bone : Bone)
  (source_axes : list string) (replace_all : bool) (st : LoopState) :
  all_ordered (fst st) = true ->
  all_ordered
    (fst (copy_loop source_bone target_bone source_axes replace_all st))
  = true.
Proof.
  unfold copy_loop. generalize (seq 0 (List.length (fst st))). intros l.
  revert st. induction l as [|i l IH]; intros st Ho; [exact Ho|].
  cbn [foldl]. apply IH, copy_fcurve_all_ordered, Ho.
Qed.

Lemma remap_pairs_all_ordered (sc : Scene) (pairs : list (Bone * Bone))
  (action : Action) (log : list Report) :
  all_ordered action = true ->
  ordered_after
    (RemapAllBonesOperator.remap_pairs sc pairs (Some (Some action)) log).
Proof.
  revert action log. induction pairs as [|[s t] pairs IH];
    intros action log Ho.
  - exists action. split; [reflexivity | exact Ho].
  - cbn -[profile copy_loop]. destruct (profile sc _) as [axes ra].
    apply IH. apply (copy_loop_all_ordered _ _ _ _ (action, log)). exact Ho.
Qed.

Lemma call_each_all_ordered (pose : list Bone) (b0 b1 active : Bone)
  (sc : Scene) (secondary : bool) (axes : list string) (action : Action)
  (log : list Report) :
  active = b0 \/ active = b1 ->
  all_ordered action = true ->
  ordered_after
    (CopyAllAxesKeyframesOperator.call_each axes secondary
       (copy_context pose b0 b1 active sc (Some (Some action))) log).
Proof.
  intros Hactive. revert action log.
  induction axes as [|axis axes IH]; intros action log Ho.
  - exists action. split; [reflexivity | exact Ho].
  - destruct (call_each_step pose b0 b1 active sc action axis axes secondary
                log Hactive) as [log' ->].
    apply IH. apply (copy_loop_all_ordered _ _ _ _ (action, [])). exact Ho.
Qed.

Lemma strictly_time_ordered (pts : list Keyframe) :
  strictly_ordered pts = true -> time_ordered pts = true.
Proof.
  induction pts as [|p [|q pts] IH]; intros H; try reflexivity.
  apply strictly_ordered_head in H as [Hlt H].
  change (Qle_bool (time p) (time q) && time_ordered (q :: pts) = true).
  apply andb_true_iff. split; [|apply IH, H].
  apply Qle_bool_iff, Qlt_le_weak, Hlt.
Qed.

Lemma strictly_ordered_flip (pts : list Keyframe) :
  strictly_ordered (FlipKeyframeAxisOperator.flip_point <$> pts)
  = strictly_ordered pts.
Proof.
  induction pts as [|p [|q pts] IH]; try reflexivity.
  change (match Qcompare (time p) (time q) with
          | Lt => strictly_ordered
                    (FlipKeyframeAxisOperator.flip_point <$> q :: pts)
          | _ => false
          end
          = match Qcompare (time p) (time q) with
            | Lt => strictly_ordered (q :: pts)
            | _ => false
            end).
  rewrite IH. reflexivity.
Qed.

(** X6: on an action all of whose curves are strictly ordered in time,
    with two different bones selected and one of them active, each of the
    five operators leaves an action all of whose curves are strictly
    ordered in time. *)
Theorem operators_keep_order (pose : list Bone) (b0 b1 active : Bone)
  (sc : Scene) (action : Action) (axis property : string) (index : Z)
  (secondary : bool)
  (Hbones : b0 <> b1)
  (Hactive : active = b0 \/ active = b1)
  (Hordered : all_ordered action = true) :
  let context := copy_context pose b0 b1 active sc (Some (Some action)) in
  ordered_after (CopyBoneKeyframesOperator.execute axis secondary context)
  /\ ordered_after (CopyAllAxesKeyframesOperator.execute secondary context)
  /\ ordered_after (RemapAllBonesOperator.execute context)
  /\ ordered_after
       (FlipKeyframeAxisOperator.execute property index context)
  /\ ordered_after (SwapKeyframesOperator.execute context).
Proof.
  cbv zeta. repeat split.
  - rewrite copy_execute by exact Hactive. cbv zeta.
    eexists. split; [reflexivity|].
    apply (copy_loop_all_ordered _ _ _ _ (action, [])). exact Hordered.
  - unfold CopyAllAxesKeyframesOperator.execute, copy_context.
    cbn -[bool_decide CopyAllAxesKeyframesOperator.call_each].
    rewrite (active_selected _ _ _ Hactive).
    apply (call_each_all_ordered pose b0 b1 active sc secondary _ action []
             Hactive Hordered).
  - unfold RemapAllBonesOperator.execute, copy_context.
    cbn -[RemapAllBonesOperator.pair_bones
          RemapAllBonesOperator.remap_pairs].
    destruct (RemapAllBonesOperator.pair_bones _ _ _ _) as [|pair pairs].
    + exists action. split; [reflexivity | exact Hordered].
    + apply remap_pairs_all_ordered. exact Hordered.
  - unfold FlipKeyframeAxisOperator.execute, copy_context.
    cbn -[Host.find_fcurve].
    destruct (Host.find_fcurve action (pose_path active property) index)
      as [k|] eqn:Hfind.
    + eexists. split; [reflexivity|].
      pose proof (proj1 (all_ordered_points action) Hordered) as Hpts.
      rewrite update_ordered
        by (apply strictly_time_ordered; rewrite strictly_ordered_flip;
            apply Hpts).
      apply all_ordered_points. intros n.
      rewrite points_set_points_eq
        by (eapply find_fcurve_lt; exact Hfind).
      case_decide; [|apply Hpts].
      rewrite strictly_ordered_flip. apply Hpts.
    + exists action. split; [reflexivity | exact Hordered].
  - destruct (swap_execute pose b0 b1 active sc action Hbones Hactive)
      as (Hst & _ & E).
    unfold swap_context in E. unfold copy_context. rewrite E.
    eexists. split; [reflexivity|].
    apply swap_fold_all_ordered; assumption.
Qed.

Lemma operators_keep_order_example :
  "Arm" <> "Hand"
  /\ ("Hand" = "Arm" \/ "Hand" = "Hand")
  /\ all_ordered two_bone_action = true
  /\ (let context :=
        copy_context ["Arm"; "Hand"] "Arm" "Hand" "Hand"
          (x_to_minus_y false) (Some (Some two_bone_action)) in
      ordered_after (CopyBoneKeyframesOperator.execute "X" false context)
      /\ ordered_after
           (CopyAllAxesKeyframesOperator.execute false context)
      /\ ordered_after (RemapAllBonesOperator.execute context)
      /\ ordered_after
           (FlipKeyframeAxisOperator.execute "location" 0 context)
      /\ ordered_after (SwapKeyframesOperator.execute context)).
Proof.
  assert (H1 : "Arm" <> "Hand") by discriminate.
  assert (H2 : "Hand" = "Arm" \/ "Hand" = "Hand") by (right; reflexivity).
  assert (H3 : all_ordered two_bone_action = true) by reflexivity.
  split; [exact H1|]. split; [exact H2|]. split; [exact H3|].
  apply (operators_keep_order ["Arm"; "Hand"] "Arm" "Hand" "Hand"
           (x_to_minus_y false) two_bone_action "X" "location" 0 false
           H1 H2 H3).
Defined.

(** ** What the copy makes of the source points *)






(** ** What the swap exchanges, and what it leaves *)

(** The loops of the swap keep the keys of the action. *)
Lemma swap_fold_keys (source_bone target_bone : Bone)
  (pas : list (string * Z)) (act : Action) :
  keys (foldl (SwapKeyframesOperator.swap_axis source_bone target_bone) act
          pas) = keys act.
Proof.
  revert act. induction pas as [|pa pas IH]; intros act; [reflexivity|].
  cbn [foldl]. rewrite IH. apply swap_axis_keys.
Qed.

(** The loops of the swap leave a channel that none of their properties
    and axes looks for. *)
Lemma swap_fold_channel_other (source_bone target_bone : Bone)
  (pas : list (string * Z)) (act : Action) (path : string) (index : Z) :
  (forall pa, pa ∈ pas ->
     (path, index) <> (pose_path source_bone pa.1, pa.2)
     /\ (path, index) <> (pose_path target_bone pa.1, pa.2)) ->
  channel (foldl (SwapKeyframesOperator.swap_axis source_bone target_bone)
             act pas) path index
  = channel act path index.
Proof.
  revert act. induction pas as [|pa pas IH]; intros act H; [reflexivity|].
  cbn [foldl]. rewrite IH by (intros pa' Hpa'; apply H; now right).
  apply swap_axis_channel_other; apply (H pa), list_elem_of_here.
Qed.





(** X9: with two different bones selected, one of them active, the swap
    creates and removes no curve and reorders none, and it leaves the
    points of every channel that is not one of the transform channels,
    property and axis, of the two bones. *)
Theorem swap_leaves_other_channels (pose : list Bone) (b0 b1 active : Bone)
  (sc : Scene) (action : Action) (path : string) (index : Z)
  (Hbones : b0 <> b1)
  (Hactive : active = b0 \/ active = b1)
  (Hother : forall pa, pa ∈ SwapKeyframesOperator.combinations ->
              (path, index) <> (pose_path b0 pa.1, pa.2)
              /\ (path, index) <> (pose_path b1 pa.1, pa.2)) :
  keeps_curves_and_channel action path index
    (SwapKeyframesOperator.execute
       (swap_context pose b0 b1 active sc action)).
Proof.
  destruct (swap_execute pose b0 b1 active sc action Hbones Hactive)
    as (Hst & Hwhich & ->).
  eexists. split; [reflexivity|]. split; [apply swap_fold_keys|].
  apply swap_fold_channel_other. intros pa Hpa.
  destruct (Hother pa Hpa) as [H0 H1].
  destruct Hwhich as [[-> ->]|[-> ->]]; split; assumption.
Qed.

Lemma swap_leaves_other_channels_example :
  "Arm" <> "Hand"
  /\ ("Hand" = "Arm" \/ "Hand" = "Hand")
  /\ (forall pa, pa ∈ SwapKeyframesOperator.combinations ->
        (pose_path "Leg" "location", 0)
        <> (pose_path "Arm" pa.1, pa.2)
        /\ (pose_path "Leg" "location", 0)
           <> (pose_path "Hand" pa.1, pa.2))
  /\ keeps_curves_and_channel three_bone_action
       (pose_path "Leg" "location") 0
       (SwapKeyframesOperator.execute
          (swap_context ["Arm"; "Hand"; "Leg"] "Arm" "Hand" "Hand"
             default_scene three_bone_action)).
Proof.
  assert (H1 : "Arm" <> "Hand") by discriminate.
  assert (H2 : "Hand" = "Arm" \/ "Hand" = "Hand") by (right; reflexivity).
  assert (H3 : forall pa, pa ∈ SwapKeyframesOperator.combinations ->
             (pose_path "Leg" "location", 0)
             <> (pose_path "Arm" pa.1, pa.2)
             /\ (pose_path "Leg" "location", 0)
                <> (pose_path "Hand" pa.1, pa.2)).
  { intros pa Hpa. vm_compute in Hpa.
    repeat (apply elem_of_cons in Hpa as [->|Hpa];
            [split; vm_compute; discriminate|]).
    inversion Hpa. }
  split; [exact H1|]. split; [exact H2|]. split; [exact H3|].
  apply (swap_leaves_other_channels ["Arm"; "Hand"; "Leg"] "Arm" "Hand"
           "Hand" default_scene three_bone_action _ _ H1 H2 H3).
Defined.

(** ** The remap as a sequence of copies *)

Lemma copy_points_log (src : list Keyframe) (k : nat) (scale j : Z)
  (act : Action) (log log' : list Report) :
  fst (copy_points src k scale j (act, log))
  = fst (copy_points src k scale j (act, log')).
Proof.
  revert act log log'. induction src as [|kp src IH]; intros act log log';
    [reflexivity|].
  cbn [copy_points report fst snd]. apply IH.
Qed.

(** The action a step of the copy loop leaves does not depend on the
    reports made so far. *)
Lemma copy_fcurve_log (source_bone target_bone : Bone)
  (source_axes : list string) (replace_all : bool) (i : nat)
  (act : Action) (log log' : list Report) :
  fst (copy_fcurve source_bone target_bone source_axes replace_all i
         (act, log))
  = fst (copy_fcurve source_bone target_bone source_axes replace_all i
           (act, log')).
Proof.
  unfold copy_fcurve. cbn [fst snd report].
  destruct (act !! i) as [fc|]; [|reflexivity].
  destruct (negb _); [reflexivity|].
  destruct (_ || _); [reflexivity|].
  destruct (source_axes !! _) as [label|]; [|reflexivity].
  destruct (axis_mapping label) as [[j scale]|]; [|reflexivity].
  destruct (match Host.find_fcurve act _ j with
            | Some k => (act, k)
            | None => Host.fcurves_new act _ j
            end) as [act2 k].
  destruct (Host.points _ i) as [|kp src]; [reflexivity|].
  apply copy_points_log.
Qed.

Lemma copy_fold_log (source_bone target_bone : Bone)
  (source_axes : list string) (replace_all : bool) (l : list nat)
  (st st' : LoopState) :
  fst st = fst st' ->
  fst (foldl (fun s i => copy_fcurve source_bone target_bone source_axes
                           replace_all i s) st l)
  = fst (foldl (fun s i => copy_fcurve source_bone target_bone source_axes
                             replace_all i s) st' l).
Proof.
  revert st st'. induction l as [|i l IH]; intros st st' H; [exact H|].
  cbn [foldl]. apply IH. destruct st as [a log], st' as [a' log'].
  cbn [fst] in H. subst a'. apply copy_fcurve_log.
Qed.

Lemma copy_loop_log (source_bone target_bone : Bone)
  (source_axes : list string) (replace_all : bool) (act : Action)
  (log log' : list Report) :
  fst (copy_loop source_bone target_bone source_axes replace_all (act, log))
  = fst (copy_loop source_bone target_bone source_axes replace_all
           (act, log')).
Proof. unfold copy_loop. cbn [fst]. apply copy_fold_log. reflexivity. Qed.

Lemma copy_pair_action (pose : list Bone) (sc : Scene) (axis : string)
  (action : Action) (source_bone target_bone : Bone) :
  copy_pair pose sc axis (Some (Some action)) (source_bone, target_bone)
  = Some (Some (fst (copy_loop source_bone target_bone
                       (fst (profile sc (RemapAllBonesOperator.uses_secondary
                                           sc source_bone)))
                       (snd (profile sc (RemapAllBonesOperator.uses_secondary
                                           sc source_bone)))
                       (action, [])))).
Proof.
  unfold copy_pair. cbn [fst snd].
  rewrite copy_execute by (right; reflexivity).
  cbn [anim_after]. unfold swap_source.
  rewrite bool_decide_true by reflexivity. reflexivity.
Qed.

Lemma copy_pair_no_action (pose : list Bone) (sc : Scene) (axis : string)
  (anim : AnimData) (pairs : list (Bone * Bone)) :
  anim = None \/ anim = Some None ->
  foldl (copy_pair pose sc axis) anim pairs = anim.
Proof.
  intros H. induction pairs as [|[s t] pairs IH]; [reflexivity|].
  cbn [foldl].
  assert (E : copy_pair pose sc axis anim (s, t) = anim).
  { unfold copy_pair, CopyBoneKeyframesOperator.execute, copy_context.
    cbn -[bool_decide profile].
    rewrite (bool_decide_true (t = t)) by reflexivity.
    rewrite orb_true_r. cbn -[profile].
    destruct (profile sc _).
    destruct H as [->| ->]; reflexivity. }
  rewrite E. exact IH.
Qed.

Lemma remap_pairs_copies (pose : list Bone) (sc : Scene) (axis : string)
  (pairs : list (Bone * Bone)) (anim : AnimData) (log : list Report) :
  anim_after (RemapAllBonesOperator.remap_pairs sc pairs anim log)
  = foldl (copy_pair pose sc axis) anim pairs.
Proof.
  revert anim log. induction pairs as [|[s t] pairs IH]; intros anim log;
    [reflexivity|].
  destruct anim as [[action|]|].
  - cbn [foldl]. rewrite copy_pair_action.
    cbn -[profile copy_loop].
    destruct (profile sc (RemapAllBonesOperator.uses_secondary sc s))
      as [axes ra]. cbn [fst snd].
    rewrite IH. rewrite (copy_loop_log s t axes ra action log []).
    reflexivity.
  - rewrite copy_pair_no_action by (right; reflexivity).
    cbn -[profile]. destruct (profile sc _). reflexivity.
  - rewrite copy_pair_no_action by (left; reflexivity).
    cbn -[profile]. destruct (profile sc _). reflexivity.
Qed.

(** X10: on an armature the remap of all bones leaves the animation data
    that the single-axis copy leaves when it is run for the pairs one
    after the other, in the order of the pairing, each time with the two
    bones of the pair selected and the target active, with the secondary
    mapping exactly when the secondary keyword occurs in the name of the
    source.  Without pairs, and without animation data or action, both
    leave the animation data as it was. *)
Theorem remap_is_copy_pair_by_pair (pose selected_bones : list Bone)
  (active : option Bone) (sc : Scene) (anim : AnimData) (axis : string) :
  anim_after
    (RemapAllBonesOperator.execute
       (mkContext (Some (mkObject ARMATURE pose anim)) selected_bones active
          sc))
  = foldl (copy_pair pose sc axis) anim
      (RemapAllBonesOperator.pair_bones (mkObject ARMATURE pose anim)
         selected_bones (primary_suffix sc) selected_bones).
Proof.
  unfold RemapAllBonesOperator.execute.
  cbn -[RemapAllBonesOperator.pair_bones RemapAllBonesOperator.remap_pairs
        foldl copy_pair].
  destruct selected_bones as [|bone rest]; [reflexivity|].
  destruct (RemapAllBonesOperator.pair_bones _ _ _ _) as [|pair pairs];
    [reflexivity|].
  apply remap_pairs_copies.
Qed.

(** X11: with a primary suffix that is not empty, the remap pairs exactly
    the selected bones whose name is the name of a bone of the armature,
    itself selected, with the suffix added: that bone is the source and the
    bone with the suffix is the target. *)
Theorem pairing_by_suffix (obj : Object) (selected_bones : list Bone)
  (suffix : string)
  (Hsuffix : suffix <> "") :
  paired_by_suffix obj selected_bones suffix.
Proof. intros s t. apply pair_bones_spec. exact Hsuffix. Qed.

Lemma pairing_by_suffix_example :
  "_ik" <> ""
  /\ paired_by_suffix (mkObject ARMATURE ["Arm"; "Arm_ik"; "Leg_ik"] None)
       ["Arm_ik"; "Leg_ik"; "Arm"] "_ik".
Proof.
  assert (H : "_ik" <> "") by discriminate.
  split; [exact H|].
  apply (pairing_by_suffix
           (mkObject ARMATURE ["Arm"; "Arm_ik"; "Leg_ik"] None)
           ["Arm_ik"; "Leg_ik"; "Arm"] "_ik" H).
Defined.



(** ** The copy of all axes without an action *)



(** ** Copying again *)

(** X14: with two bones selected, one of them active, and the paths of the
    active bone apart from the location paths of the other, the single-axis
    copy run again on the action it has left, for whatever axis, leaves
    that action as it is. *)
Theorem copy_again_changes_nothing (pose : list Bone) (b0 b1 active : Bone)
  (sc : Scene) (action : Action) (axis axis' : string) (secondary : bool)
  (Hactive : active = b0 \/ active = b1)
  (Hseparate : separate (swap_source b0 b1 active) active) :
  anim_after
    (CopyBoneKeyframesOperator.execute axis' secondary
       (copy_context pose b0 b1 active sc
          (anim_after
             (CopyBoneKeyframesOperator.execute axis secondary
                (copy_context pose b0 b1 active sc (Some (Some action)))))))
  = anim_after
      (CopyBoneKeyframesOperator.execute axis secondary
         (copy_context pose b0 b1 active sc (Some (Some action)))).
Proof.
  rewrite (copy_execute pose b0 b1 active sc action axis secondary Hactive).
  cbv zeta. cbn [anim_after].
  rewrite copy_execute by exact Hactive. cbv zeta. cbn [anim_after].
  rewrite copy_loop_twice by exact Hseparate. reflexivity.
Qed.

Lemma copy_again_changes_nothing_example :
  ("Hand" = "Arm" \/ "Hand" = "Hand")
  /\ separate (swap_source "Arm" "Hand" "Hand") "Hand"
  /\ anim_after
       (CopyBoneKeyframesOperator.execute "Y" false
          (copy_context ["Arm"; "Hand"] "Arm" "Hand" "Hand"
             (x_to_minus_y false)
             (anim_after
                (CopyBoneKeyframesOperator.execute "X" false
                   (copy_context ["Arm"; "Hand"] "Arm" "Hand" "Hand"
                      (x_to_minus_y false)
                      (Some (Some (arm_hand_action [key 5 99]))))))))
     = anim_after
         (CopyBoneKeyframesOperator.execute "X" false
            (copy_context ["Arm"; "Hand"] "Arm" "Hand" "Hand"
               (x_to_minus_y false)
               (Some (Some (arm_hand_action [key 5 99]))))).
Proof.
  assert (H1 : "Hand" = "Arm" \/ "Hand" = "Hand") by (right; reflexivity).
  assert (H2 : separate (swap_source "Arm" "Hand" "Hand") "Hand")
    by exact separate_arm_hand.
  split; [exact H1|]. split; [exact H2|].
  apply (copy_again_changes_nothing ["Arm"; "Hand"] "Arm" "Hand" "Hand"
           (x_to_minus_y false) (arm_hand_action [key 5 99]) "X" "Y" false
           H1 H2).
Defined.

(** ** The swap and the active bone *)

(** The body of the swap loops does the same from either bone to the
    other. *)
Lemma swap_axis_sym (source_bone target_bone : Bone) (act : Action)
  (pa : string * Z) :
  source_bone <> target_bone ->
  SwapKeyframesOperator.swap_axis source_bone target_bone act pa
  = SwapKeyframesOperator.swap_axis target_bone source_bone act pa.
Proof.
  intros Hne. destruct pa as [prop axis].
  unfold SwapKeyframesOperator.swap_axis.
  destruct (Host.find_fcurve act (pose_path source_bone prop) axis)
    as [i|] eqn:Ei;
    destruct (Host.find_fcurve act (pose_path target_bone prop) axis)
      as [k|] eqn:Ek; try reflexivity.
  assert (Hik : i <> k).
  { intros ->.
    pose proof (find_fcurve_same_position _ _ _ _ _ _ Ei Ek) as E.
    apply (f_equal fst) in E. cbn [fst] in E.
    apply pose_path_bone_inj in E. contradiction. }
  pose proof (find_fcurve_lt _ _ _ _ Ei) as Hi.
  pose proof (find_fcurve_lt _ _ _ _ Ek) as Hk.
  rewrite !foldl_insert_data. unfold Host.clear.
  apply action_eq.
  - rewrite !keys_set_points. reflexivity.
  - intros n.
    repeat (rewrite points_set_points_eq
              by (rewrite ?set_points_length; assumption)).
    repeat case_decide; subst; try reflexivity; congruence.
Qed.

Lemma swap_fold_sym (source_bone target_bone : Bone)
  (pas : list (string * Z)) (act : Action) :
  source_bone <> target_bone ->
  foldl (SwapKeyframesOperator.swap_axis source_bone target_bone) act pas
  = foldl (SwapKeyframesOperator.swap_axis target_bone source_bone) act pas.
Proof.
  intros Hne. revert act. induction pas as [|pa pas IH]; intros act;
    [reflexivity|].
  cbn [foldl]. rewrite swap_axis_sym by exact Hne. apply IH.
Qed.

(** X15: with two different bones selected, the swap leaves the same
    animation data whichever of the two is the active bone. *)
Theorem swap_either_bone_active (pose : list Bone) (b0 b1 : Bone)
  (sc : Scene) (action : Action)
  (Hbones : b0 <> b1) :
  anim_after
    (SwapKeyframesOperator.execute (swap_context pose b0 b1 b0 sc action))
  = anim_after
      (SwapKeyframesOperator.execute (swap_context pose b0 b1 b1 sc action)).
Proof.
  destruct (swap_execute pose b0 b1 b0 sc action Hbones
              (or_introl eq_refl)) as (_ & _ & ->).
  destruct (swap_execute pose b0 b1 b1 sc action Hbones
              (or_intror eq_refl)) as (_ & _ & ->).
  cbn [anim_after]. unfold swap_source.
  rewrite (bool_decide_false (b1 = b0)) by congruence.
  rewrite (bool_decide_true (b1 = b1)) by reflexivity.
  rewrite swap_fold_sym by congruence. reflexivity.
Qed.

Lemma swap_either_bone_active_example :
  "Arm" <> "Hand"
  /\ anim_after
       (SwapKeyframesOperator.execute
          (swap_context ["Arm"; "Hand"] "Arm" "Hand" "Arm" default_scene
             two_bone_action))
     = anim_after
         (SwapKeyframesOperator.execute
            (swap_context ["Arm"; "Hand"] "Arm" "Hand" "Hand" default_scene
               two_bone_action)).
Proof.
  assert (H : "Arm" <> "Hand") by discriminate.
  split; [exact H|].
  apply (swap_either_bone_active ["Arm"; "Hand"] "Arm" "Hand" default_scene
           two_bone_action H).
Defined.
